(** * cors-mx: the relay handler of [api/proxy.js]

    A shallow embedding of the single serverless function of the
    repository, and the properties of its request validation, header
    construction and response relay.

    JavaScript objects used as dictionaries (header mappings, the parsed
    extra-header object, the query object) are finite maps with string
    keys: a key is a byte-for-byte string, as in JavaScript, so ["Host"]
    and ["host"] are two different keys.  The built-ins of the Node
    runtime that the handler calls ([Buffer.from], [JSON.parse],
    [new URL], [process.env], [fetch]) are taken as parameters. *)

From stdpp Require Import gmap strings list fin_maps pretty.
From Stdlib Require Import ZArith Ascii String.

#[local] Set Warnings "-register-all".
#[local] Open Scope string_scope.
#[local] Open Scope Z_scope.

(** ** JavaScript values *)

(** The values [JSON.parse] can return.  Only the type of a number
    matters to the handler, so its payload is kept integral. *)
Inductive JsVal : Type :=
| JNull
| JBool (b : bool)
| JNum (n : Z)
| JStr (s : string)
| JArr (l : list JsVal)
| JObj (m : gmap string JsVal).

(** [typeof v === 'object'], which JavaScript answers with [true] for
    [null], arrays and plain objects. *)
Definition typeof_object (v : JsVal) : bool :=
  match v with
  | JNull | JArr _ | JObj _ => true
  | _ => false
  end.

(** Truthiness of a value, as tested by [v && ...] and [v || ...]. *)
Definition truthy (v : JsVal) : bool :=
  match v with
  | JNull => false
  | JBool b => b
  | JNum n => negb (n =? 0)
  | JStr s => negb (String.eqb s "")
  | JArr _ | JObj _ => true
  end.

(** Truthiness of a property that may be [undefined] and otherwise holds
    a string: [req.query.url], [req.headers.origin], [process.env.X]. *)
Definition truthy_str (o : option string) : bool :=
  match o with
  | Some s => negb (String.eqb s "")
  | None => false
  end.

(** [o || d] for such a property. *)
Definition or_else (o : option string) (d : string) : string :=
  if truthy_str o then default d o else d.

(** [Object.entries(v)] for a value whose [typeof] is ['object']: the
    own enumerable properties, which for an array are its elements under
    their decimal indices. *)
Definition Object_entries (v : JsVal) : list (string * JsVal) :=
  match v with
  | JObj m => map_to_list m
  | JArr l => imap (λ i x, (pretty i, x)) l
  | _ => []
  end.

(** ** Strings

    A string is the sequence of the bytes of its UTF-8 encoding.  The
    two built-ins below are computed on ASCII strings, where they are
    byte-wise; on a string with characters beyond ASCII they are what
    the runtime says (see [String_trim] and [String_toLowerCase]). *)

(** [String.prototype.toLowerCase] on an ASCII string.  Header names are
    ASCII tokens, and so is the host a URL serialises. *)
Definition toLowerCase_ascii (c : ascii) : ascii :=
  let n := nat_of_ascii c in
  if ((65 <=? n) && (n <=? 90))%nat then ascii_of_nat (n + 32) else c.

Fixpoint toLowerCase (s : string) : string :=
  match s with
  | EmptyString => EmptyString
  | String c s' => String (toLowerCase_ascii c) (toLowerCase s')
  end.

(** The white space and line terminators of ASCII. *)
Definition is_space (c : ascii) : bool :=
  let n := nat_of_ascii c in
  (((9 <=? n) && (n <=? 13)) || (n =? 32))%nat.

Fixpoint trimStart (s : string) : string :=
  match s with
  | EmptyString => EmptyString
  | String c s' => if is_space c then trimStart s' else s
  end.

Fixpoint trimEnd (s : string) : string :=
  match s with
  | EmptyString => EmptyString
  | String c s' =>
      let r := trimEnd s' in
      if is_space c && String.eqb r "" then EmptyString else String c r
  end.

(** [String.prototype.trim] on an ASCII string. *)
Definition trim (s : string) : string := trimEnd (trimStart s).

(** Every character of the string is ASCII. *)
Fixpoint ascii_only (s : string) : bool :=
  match s with
  | EmptyString => true
  | String c s' => (nat_of_ascii c <? 128)%nat && ascii_only s'
  end.

(** [s.split(sep)] for a one-character separator: never empty, and the
    empty string splits into one empty field. *)
Fixpoint split (sep : ascii) (s : string) : list string :=
  match s with
  | EmptyString => [EmptyString]
  | String c s' =>
      if Ascii.eqb c sep then EmptyString :: split sep s'
      else match split sep s' with
           | [] => [String c EmptyString]
           | w :: ws => String c w :: ws
           end
  end.

(** ** The data of one call *)

(** What [new URL(u)] exposes to the handler.  The [hostname] is the
    serialised host, which the URL parser delivers in ASCII (a domain in
    its punycode form, an address, or a percent-encoded opaque host). *)
Record URL := { protocol : string; hostname : string }.

(** The built-ins and the configuration the handler reads. *)
Record Runtime := {
  (** [Buffer.from(s, 'base64').toString('utf8')]; it does not throw on
      a string, malformed input is decoded leniently. *)
  Buffer_base64_utf8 : string → string;
  (** [JSON.parse(s)]; [None] when it throws. *)
  JSON_parse : string → option JsVal;
  (** [new URL(u)]; [None] when it throws. *)
  URL_parse : string → option URL;
  (** [process.env.ALLOWLIST]; [None] when the variable is unset. *)
  env_ALLOWLIST : option string;
  (** [s.trim()] for a string with characters beyond ASCII: the Unicode
      white space (U+00A0, U+FEFF, U+2028, ...) is removed as well. *)
  trim_unicode : string → string;
  (** [s.toLowerCase()] for a string with characters beyond ASCII: the
      Unicode case mapping. *)
  toLowerCase_unicode : string → string
}.

(** [s.trim()] *)
Definition String_trim (rt : Runtime) (s : string) : string :=
  if ascii_only s then trim s else trim_unicode rt s.

(** [s.toLowerCase()] *)
Definition String_toLowerCase (rt : Runtime) (s : string) : string :=
  if ascii_only s then toLowerCase s else toLowerCase_unicode rt s.

(** The inbound request [req]: Node hands over the header names in
    lower case. *)
Record Request := {
  method : string;
  query : gmap string string;
  headers : gmap string string;
  body : string
}.

(** The [init] argument of [fetch]. *)
Record RequestInit := {
  init_method : string;
  init_headers : gmap string JsVal;
  init_body : option string
}.

(** The [body] of the resolved value.  Which kind it is depends on the
    [fetch] the runtime provides; the handler calls [pipe] and [on] on it. *)
Inductive Body : Type :=
(** A Node stream (as [node-fetch] returns): it has [pipe] and [on]; it
    delivers [bytes] and may then emit ['error'] with a message. *)
| NodeStream (bytes : string) (failure : option string)
(** A web [ReadableStream] (as the global [fetch] of Node 18 and later
    returns): it has no [pipe] method. *)
| WebStream (bytes : string).

(** The resolved value of [fetch].  [up_entries] are the calls
    [upstream.headers.forEach] makes to its callback, in order, as
    (name, value): a name can come more than once ([set-cookie]).  The
    names are HTTP tokens, hence ASCII; [fetch] yields them in lower
    case. *)
Record Upstream := {
  up_status : Z;
  up_entries : list (string * string);
  up_body : option Body
}.

(** The value the upstream sent last under a name. *)
Definition up_headers (up : Upstream) : gmap string string :=
  list_to_map (reverse (up_entries up)).

(** The outcome of awaiting [fetch]: resolved, or rejected with an error
    whose [message] is kept. *)
Inductive FetchResult : Type :=
| Resolved (upstream : Upstream)
| Rejected (message : string).

(** The data given to [res.end]: the text [JSON.stringify] makes of a
    value, kept as that value. *)
Inductive Payload : Type :=
| JSON_stringify (v : JsVal).

(** ** Effects *)

(** The handler as a program over the effects it performs: calls on
    [res], one awaited [fetch], or an exception escaping the function. *)
Inductive Eff : Type :=
| Return
| res_writeHead (status : Z) (hdrs : gmap string string) (k : Eff)
| res_end (data : option Payload) (k : Eff)
| body_pipe (bytes : string) (k : Eff)
| res_destroy (err : string) (k : Eff)
| await_fetch (url : string) (init : RequestInit) (k : FetchResult → Eff)
| Throw.

Inductive Event : Type :=
| EvWriteHead (status : Z) (hdrs : gmap string string)
| EvEnd (data : option Payload)
| EvPipe (bytes : string)
| EvDestroy (err : string)
| EvFetch (url : string) (init : RequestInit)
| EvThrow.

(** Running a program against a network that answers each [fetch].
    [sent] says that the response head has been written: Node's
    [writeHead] then throws [ERR_HTTP_HEADERS_SENT], and the exception
    leaves the handler. *)
Fixpoint exec (sent : bool) (net : string → RequestInit → FetchResult) (p : Eff)
    : list Event :=
  match p with
  | Return => []
  | res_writeHead st h k =>
      if sent then [EvThrow] else EvWriteHead st h :: exec true net k
  | res_end d k => EvEnd d :: exec sent net k
  | body_pipe b k => EvPipe b :: exec sent net k
  | res_destroy e k => EvDestroy e :: exec sent net k
  | await_fetch u i k => EvFetch u i :: exec sent net (k (net u i))
  | Throw => [EvThrow]
  end.

(** A call starts with nothing written. *)
Definition run (net : string → RequestInit → FetchResult) (p : Eff) : list Event :=
  exec false net p.

(** ** The source, function by function *)

Definition HOP_BY_HOP : gset string :=
  {[ "connection"; "keep-alive"; "proxy-authenticate"; "proxy-authorization";
     "te"; "trailers"; "transfer-encoding"; "upgrade"; "host" ]}.

(** [HOP_BY_HOP.has(k.toLowerCase())] *)
Definition is_hop_by_hop (k : string) : bool :=
  bool_decide (toLowerCase k ∈ HOP_BY_HOP).

Definition decodeHeaderBase64 (rt : Runtime) (h64 : string) : option JsVal :=
  match JSON_parse rt (Buffer_base64_utf8 rt h64) with
  | Some obj => if truthy obj && typeof_object obj then Some obj else None
  | None => None
  end.

Definition corsHeaders (origin : string) : gmap string string :=
  {[ "Access-Control-Allow-Origin" := origin;
     "Access-Control-Allow-Credentials" := "false";
     "Access-Control-Allow-Methods" := "GET,POST,PUT,PATCH,DELETE,OPTIONS";
     "Access-Control-Allow-Headers" :=
       "Content-Type, Authorization, X-Requested-With, X-CSRF-Token, Accept, Origin";
     "Access-Control-Max-Age" := "86400" ]}.

Definition isHttpUrl (rt : Runtime) (u : string) : bool :=
  match URL_parse rt u with
  | Some parsed =>
      String.eqb (protocol parsed) "http:" || String.eqb (protocol parsed) "https:"
  | None => false
  end.

(** [None] when [new URL(u)] throws: the call is outside any [try]. *)
Definition allowedByEnv (rt : Runtime) (u : string) : option bool :=
  if negb (truthy_str (env_ALLOWLIST rt)) then Some true
  else
    match URL_parse rt u with
    | Some parsed =>
        Some (bool_decide
                (toLowerCase (hostname parsed) ∈
                 (λ s, String_toLowerCase rt (String_trim rt s)) <$>
                 split "," (default "" (env_ALLOWLIST rt))))
    | None => None
    end.

(** [{ 'Content-Type': 'application/json', ...corsHeaders(origin) }] *)
Definition jsonHeaders (origin : string) : gmap string string :=
  corsHeaders origin ∪ {[ "Content-Type" := "application/json" ]}.

(** [res.writeHead(st, {...}); res.end(JSON.stringify({ error: msg }))] *)
Definition fail (st : Z) (origin msg : string) : Eff :=
  res_writeHead st (jsonHeaders origin)
    (res_end (Some (JSON_stringify (JObj {[ "error" := JStr msg ]}))) Return).

(** The copy loop over [Object.entries(req.headers)].  Node fills
    [req.headers] by the same kind of assignment, so that object has no
    entry named [__proto__] and the plain insertion is exact here. *)
Definition copyInbound (h : gmap string string) : gmap string JsVal :=
  map_fold (λ k v acc, if is_hop_by_hop k then acc else <[k := JStr v]> acc) ∅ h.

Definition DEFAULT_UA : string := "Mozilla/5.0 (CORS-Proxy on Vercel)".

(** [upstreamHeaders['user-agent'] || '...'] *)
Definition userAgent (up : gmap string JsVal) : JsVal :=
  match up !! "user-agent" with
  | Some v => if truthy v then v else JStr DEFAULT_UA
  | None => JStr DEFAULT_UA
  end.

(** [obj[k] = v] on an object created as [{}].  The name [__proto__] is
    the accessor such an object inherits: assigning to it stores no
    property (a primitive is ignored, an object or [null] becomes the
    prototype, which adds no own property either). *)
Definition assign {V : Type} (k : string) (v : V) (obj : gmap string V) : gmap string V :=
  if decide (k = "__proto__") then obj else <[k := v]> obj.

(** [for (const [k, v] of Object.entries(extraHeaders)) upstreamHeaders[k] = v] *)
Definition overlay (extra : JsVal) (up : gmap string JsVal) : gmap string JsVal :=
  foldl (λ acc kv, assign kv.1 kv.2 acc) up (Object_entries extra).

(** Lines 89-90: [h64 ? decodeHeaderBase64(h64) : null]. *)
Definition extraHeaders (rt : Runtime) (req : Request) : option JsVal :=
  let h64 := query req !! "h64" in
  if truthy_str h64 then decodeHeaderBase64 rt (default "" h64) else None.

(** Lines 92-100: the mapping before the extra headers are overlaid. *)
Definition baseHeaders (req : Request) : gmap string JsVal :=
  let up := copyInbound (headers req) in
  let up := <["user-agent" := userAgent up]> up in
  delete "origin" up.

(** Lines 89-103: the header mapping of the outbound request. *)
Definition upstreamHeaders (rt : Runtime) (req : Request) : gmap string JsVal :=
  match extraHeaders rt req with
  | Some extra => overlay extra (baseHeaders req)
  | None => baseHeaders req
  end.

(** Lines 105-110. *)
Definition mkInit (rt : Runtime) (req : Request) : RequestInit :=
  {| init_method := method req;
     init_headers := upstreamHeaders rt req;
     init_body :=
       if bool_decide (method req ∈ ["GET"; "HEAD"]) then None else Some (body req) |}.

(** The copy loop of [upstream.headers.forEach]: one step per call of
    the callback, a later value replacing an earlier one of that name. *)
Definition copyUpstream (entries : list (string * string)) : gmap string string :=
  foldl (λ acc kv, if is_hop_by_hop kv.1 then acc else assign kv.1 kv.2 acc) ∅ entries.

Definition DEFAULT_EXPOSE : string := "Content-Type, Content-Length, ETag".

(** Lines 115-127: the header mapping of the relayed response. *)
Definition relayHeaders (origin : string) (up : Upstream) : gmap string string :=
  let hd := copyUpstream (up_entries up) in
  let cors := corsHeaders origin in
  let set k (hd : gmap string string) := <[k := default "" (cors !! k)]> hd in
  let hd := set "Access-Control-Allow-Origin" hd in
  let hd := set "Access-Control-Allow-Credentials" hd in
  let hd := set "Access-Control-Allow-Methods" hd in
  let hd := set "Access-Control-Allow-Headers" hd in
  let hd := set "Access-Control-Max-Age" hd in
  <["Access-Control-Expose-Headers" :=
      or_else (hd !! "Access-Control-Expose-Headers") DEFAULT_EXPOSE]> hd.

(** Lines 141-144: the [catch] block, for an error with message [msg]. *)
Definition onError (origin msg : string) : Eff :=
  res_writeHead 502 (jsonHeaders origin)
    (res_end
       (Some (JSON_stringify
                (JObj {[ "error" := JStr "Upstream error"; "detail" := JStr msg ]})))
       Return).

(** The message of the [TypeError] raised by line 134 on a body
    without [pipe]. *)
Definition NO_PIPE : string := "upstream.body.pipe is not a function".

(** Lines 112-144: what follows the awaited [fetch].  A rejected
    [fetch] goes to the [catch] block, and so does the [TypeError] of
    calling [pipe] on a body that has none, after the head is written.
    On a Node stream the body is piped and the ['error'] listener of
    lines 135-137 destroys the response when the stream fails. *)
Definition relay (origin : string) (r : FetchResult) : Eff :=
  match r with
  | Resolved up =>
      res_writeHead (up_status up) (relayHeaders origin up)
        (match up_body up with
         | Some (NodeStream b failure) =>
             body_pipe b
               (match failure with
                | Some e => res_destroy e Return
                | None => Return
                end)
         | Some (WebStream _) => onError origin NO_PIPE
         | None => res_end None Return
         end)
  | Rejected msg => onError origin msg
  end.

(** Line 61: [req.headers.origin || '*']. *)
Definition inboundOrigin (req : Request) : string :=
  or_else (headers req !! "origin") "*".

Definition handler (rt : Runtime) (req : Request) : Eff :=
  let url := query req !! "url" in
  let origin := inboundOrigin req in
  if String.eqb (method req) "OPTIONS" then
    res_writeHead 204 (corsHeaders origin) (res_end None Return)
  else if negb (truthy_str url) then
    fail 400 origin "Falta el parámetro ?url="
  else if negb (isHttpUrl rt (default "" url)) then
    fail 400 origin "URL inválida o protocolo no permitido"
  else
    match allowedByEnv rt (default "" url) with
    | None => Throw
    | Some false => fail 403 origin "Host no permitido por ALLOWLIST"
    | Some true => await_fetch (default "" url) (mkInit rt req) (relay origin)
    end.

(** ** Observations on a run *)

(** The status line and header mapping the caller receives: the first
    [writeHead] of the run. *)
Fixpoint response_head (tr : list Event) : option (Z * gmap string string) :=
  match tr with
  | [] => None
  | EvWriteHead st h :: _ => Some (st, h)
  | _ :: tr' => response_head tr'
  end.

(** An upstream call was issued during the run. *)
Definition calls_upstream (tr : list Event) : Prop :=
  ∃ u i, EvFetch u i ∈ tr.

(** The text of an error response: a JSON object with an [error] member. *)
Definition error_body (msg : string) : option Payload :=
  Some (JSON_stringify (JObj {[ "error" := JStr msg ]})).

(** The request survives the three checks of lines 70-86 with target [u]. *)
Definition passes_validation (rt : Runtime) (req : Request) (u : string) : Prop :=
  method req ≠ "OPTIONS" ∧ query req !! "url" = Some u ∧ u ≠ "" ∧
  isHttpUrl rt u = true ∧ allowedByEnv rt u = Some true.

(** The request is stopped by one of the three checks. *)
Definition fails_validation (rt : Runtime) (req : Request) : Prop :=
  method req ≠ "OPTIONS" ∧
  (truthy_str (query req !! "url") = false ∨
   isHttpUrl rt (default "" (query req !! "url")) = false ∨
   allowedByEnv rt (default "" (query req !! "url")) = Some false).

(** A syntactically valid absolute URL with scheme [http] or [https]. *)
Definition valid_http_url (rt : Runtime) (u : string) : Prop :=
  ∃ parsed, URL_parse rt u = Some parsed ∧
            (protocol parsed = "http:" ∨ protocol parsed = "https:").

(** The host is one of the comma-separated entries of the allow-list:
    the lower-cased host equals an entry once that is trimmed of the
    white space around it and lower-cased. *)
Definition host_listed (rt : Runtime) (allow host : string) : Prop :=
  ∃ entry, entry ∈ split "," allow ∧
           String_toLowerCase rt (String_trim rt entry) = toLowerCase host.

(** Two characters are the same, or the same letter of ASCII in the
    two cases. *)
Definition same_ignoring_case (a b : ascii) : bool :=
  let m := nat_of_ascii a in
  let n := nat_of_ascii b in
  ((m =? n) || ((65 <=? m) && (m <=? 90) && (n =? m + 32))
            || ((65 <=? n) && (n <=? 90) && (m =? n + 32)))%nat.

(** Two strings are equal, the case of the letters of ASCII apart. *)
Fixpoint equal_ignoring_case (s t : string) : bool :=
  match s, t with
  | EmptyString, EmptyString => true
  | String a s', String b t' => same_ignoring_case a b && equal_ignoring_case s' t'
  | _, _ => false
  end.

(** The request reaches [fetch] with target [u] and the [init] of
    lines 105-110. *)
Definition forwards (rt : Runtime) (net : string → RequestInit → FetchResult)
    (req : Request) (u : string) : Prop :=
  ∃ tl, run net (handler rt req) = EvFetch u (mkInit rt req) :: tl.

(** The same request without the [h64] query parameter. *)
Definition without_h64 (req : Request) : Request :=
  {| method := method req; query := delete "h64" (query req);
     headers := headers req; body := body req |}.

(** The run that answers with a JSON error and nothing else. *)
Definition error_response (st : Z) (origin msg : string) : list Event :=
  [EvWriteHead st (jsonHeaders origin); EvEnd (error_body msg)].

(** ** What the specification says where the code differs

    These predicates follow the words of the specification; they are
    compared with the code below. *)

(** [Access-Control-Allow-Origin] is the inbound [Origin] value when the
    header is present, and [*] otherwise. *)
Definition echoes_present_origin (req : Request) (h : gmap string string) : Prop :=
  h !! "Access-Control-Allow-Origin" = Some (default "*" (headers req !! "origin")).

(** The fixed members of the cross-origin header set. *)
Definition fixed_cors (h : gmap string string) : Prop :=
  h !! "Access-Control-Allow-Credentials" = Some "false" ∧
  h !! "Access-Control-Allow-Methods" = Some "GET,POST,PUT,PATCH,DELETE,OPTIONS" ∧
  h !! "Access-Control-Allow-Headers" =
    Some "Content-Type, Authorization, X-Requested-With, X-CSRF-Token, Accept, Origin" ∧
  h !! "Access-Control-Max-Age" = Some "86400".

(** Every response carries the cross-origin set with the origin echoed
    whenever the header is present. *)
Definition cors_on_every_path (rt : Runtime) (net : string → RequestInit → FetchResult)
    (req : Request) : Prop :=
  ∃ st h, response_head (run net (handler rt req)) = Some (st, h) ∧
          echoes_present_origin req h ∧ fixed_cors h.

(** The preflight answer with the origin echoed whenever the header is
    present. *)
Definition preflight_as_specified (rt : Runtime) (net : string → RequestInit → FetchResult)
    (req : Request) : Prop :=
  ∃ h, run net (handler rt req) = [EvWriteHead 204 h; EvEnd None] ∧
       echoes_present_origin req h ∧ fixed_cors h.

(** The extra headers are used exactly when the decoded text parses to a
    key-value object. *)
Definition extras_iff_key_value_object (rt : Runtime) (req : Request) : Prop :=
  ∀ v, extraHeaders rt req = Some v ↔
       ∃ s m, query req !! "h64" = Some s ∧
              JSON_parse rt (Buffer_base64_utf8 rt s) = Some v ∧ v = JObj m.

(** With an allow-list in the environment (the variable is set), the
    request is forwarded exactly when its host equals one of the
    comma-separated entries, letter case apart; with none, always. *)
Definition allow_list_exact_match (rt : Runtime)
    (net : string → RequestInit → FetchResult) (req : Request) (u : string)
    (parsed : URL) : Prop :=
  match env_ALLOWLIST rt with
  | None => forwards rt net req u
  | Some allow =>
      forwards rt net req u ↔
      ∃ entry, entry ∈ split "," allow ∧
               equal_ignoring_case entry (hostname parsed) = true
  end.

(** ** Sample runtime, network and requests

    The tables list what the Node built-ins return on the inputs used in
    the examples below. *)
Module Sample.

Definition dq : string := String (ascii_of_nat 34) EmptyString.
Definition quoted (s : string) : string := dq +:+ s +:+ dq.

(** [{"Authorization":"Bearer abc"}] *)
Definition auth_json : string :=
  "{" +:+ quoted "Authorization" +:+ ":" +:+ quoted "Bearer abc" +:+ "}".

(** [{"origin":"https://spoofed.example","host":"internal.example"}] *)
Definition reintro_json : string :=
  "{" +:+ quoted "origin" +:+ ":" +:+ quoted "https://spoofed.example" +:+ "," +:+
  quoted "host" +:+ ":" +:+ quoted "internal.example" +:+ "}".

(** [{"__proto__":"x","X-Token":"t"}] *)
Definition proto_json : string :=
  "{" +:+ quoted "__proto__" +:+ ":" +:+ quoted "x" +:+ "," +:+
  quoted "X-Token" +:+ ":" +:+ quoted "t" +:+ "}".

Definition auth_h64 : string := "eyJBdXRob3JpemF0aW9uIjoiQmVhcmVyIGFiYyJ9".
Definition proto_h64 : string := "eyJfX3Byb3RvX18iOiJ4IiwiWC1Ub2tlbiI6InQifQ==".
Definition array_h64 : string := "WzFd".
Definition reintro_h64 : string :=
  "eyJvcmlnaW4iOiJodHRwczovL3Nwb29mZWQuZXhhbXBsZSIsImhvc3QiOiJpbnRlcm5hbC5leGFtcGxlIn0=".

Definition base64_table (s : string) : string :=
  if String.eqb s auth_h64 then auth_json
  else if String.eqb s array_h64 then "[1]"
  else if String.eqb s reintro_h64 then reintro_json
  else if String.eqb s proto_h64 then proto_json
  else "".

Definition parse_table (s : string) : option JsVal :=
  if String.eqb s auth_json then
    Some (JObj {[ "Authorization" := JStr "Bearer abc" ]})
  else if String.eqb s "[1]" then Some (JArr [JNum 1])
  else if String.eqb s reintro_json then
    Some (JObj {[ "origin" := JStr "https://spoofed.example";
                  "host" := JStr "internal.example" ]})
  else if String.eqb s proto_json then
    Some (JObj {[ "__proto__" := JStr "x"; "X-Token" := JStr "t" ]})
  else None.

Definition url_table (s : string) : option URL :=
  if String.eqb s "https://api.example.com/data" then
    Some {| protocol := "https:"; hostname := "api.example.com" |}
  else if String.eqb s "https://other.com/x" then
    Some {| protocol := "https:"; hostname := "other.com" |}
  else if String.eqb s "ftp://example.com" then
    Some {| protocol := "ftp:"; hostname := "example.com" |}
  else if String.eqb s "https://example.org/" then
    Some {| protocol := "https:"; hostname := "example.org" |}
  else None.

(** The entry [api.example.com] behind a no-break space (U+00A0, the
    bytes 194 and 160 in UTF-8). *)
Definition nbsp_entry : string :=
  String (ascii_of_nat 194) (String (ascii_of_nat 160) "api.example.com").

(** [trim] removes the no-break space. *)
Definition trim_table (s : string) : string :=
  if String.eqb s nbsp_entry then "api.example.com" else s.

(** No sample lower-cases a string beyond ASCII. *)
Definition lower_table (s : string) : string := s.

(** No allow-list in the environment. *)
Definition node_open : Runtime :=
  {| Buffer_base64_utf8 := base64_table; JSON_parse := parse_table;
     URL_parse := url_table; env_ALLOWLIST := None;
     trim_unicode := trim_table; toLowerCase_unicode := lower_table |}.

(** [ALLOWLIST=api.example.com, Example.ORG] *)
Definition node_listed : Runtime :=
  {| Buffer_base64_utf8 := base64_table; JSON_parse := parse_table;
     URL_parse := url_table; env_ALLOWLIST := Some "api.example.com, Example.ORG";
     trim_unicode := trim_table; toLowerCase_unicode := lower_table |}.

(** An upstream that answers 200 and names its own exposed headers; the
    names arrive in lower case, as [Headers] iterates them. *)
Definition upstream_ok : Upstream :=
  {| up_status := 200;
     up_entries := [ ("access-control-expose-headers", "X-Request-Id");
                     ("connection", "keep-alive");
                     ("content-type", "application/json") ];
     up_body := Some (NodeStream "{}" None) |}.

Definition net_ok (u : string) (i : RequestInit) : FetchResult := Resolved upstream_ok.

(** The same answer as the global [fetch] delivers it: the body is a web
    stream. *)
Definition upstream_web : Upstream :=
  {| up_status := 200; up_entries := up_entries upstream_ok;
     up_body := Some (WebStream "{}") |}.

(** An answer whose stream breaks after three bytes. *)
Definition upstream_broken : Upstream :=
  {| up_status := 200; up_entries := up_entries upstream_ok;
     up_body := Some (NodeStream "{}" (Some "aborted")) |}.

(** A bodiless answer with two cookies and a header named [__proto__]. *)
Definition upstream_cookies : Upstream :=
  {| up_status := 204;
     up_entries := [ ("__proto__", "x"); ("set-cookie", "a=1"); ("set-cookie", "b=2") ];
     up_body := None |}.

Definition net_of (up : Upstream) (u : string) (i : RequestInit) : FetchResult :=
  Resolved up.

Definition net_down (u : string) (i : RequestInit) : FetchResult :=
  Rejected "getaddrinfo ENOTFOUND api.example.com".

Definition target : string := "https://api.example.com/data".

Definition browser_headers : gmap string string :=
  {[ "host" := "relay.example"; "origin" := "https://app.example"; "accept" := "*/*" ]}.

Definition req_get : Request :=
  {| method := "GET"; query := {[ "url" := target ]};
     headers := browser_headers; body := "ignored" |}.

Definition req_post : Request :=
  {| method := "POST"; query := {[ "url" := target ]};
     headers := browser_headers; body := "{}" |}.

(** An inbound [authorization] header and an extra [Authorization]. *)
Definition req_auth : Request :=
  {| method := "GET"; query := {[ "url" := target; "h64" := auth_h64 ]};
     headers := {[ "host" := "relay.example"; "authorization" := "Bearer in" ]};
     body := "" |}.

Definition req_array : Request :=
  {| method := "GET"; query := {[ "url" := target; "h64" := array_h64 ]};
     headers := browser_headers; body := "" |}.

Definition req_reintro : Request :=
  {| method := "GET"; query := {[ "url" := target; "h64" := reintro_h64 ]};
     headers := browser_headers; body := "" |}.

(** An [h64] that is not base64: [Buffer.from] decodes it to the empty
    text, which [JSON.parse] rejects. *)
Definition req_bad_h64 : Request :=
  {| method := "GET"; query := {[ "url" := target; "h64" := "%%%" ]};
     headers := browser_headers; body := "" |}.

Definition req_ftp : Request :=
  {| method := "GET"; query := {[ "url" := "ftp://example.com" ]};
     headers := browser_headers; body := "" |}.

(** An extra entry named [__proto__] beside an ordinary one. *)
Definition req_proto : Request :=
  {| method := "GET"; query := {[ "url" := target; "h64" := proto_h64 ]};
     headers := browser_headers; body := "" |}.

Definition req_org : Request :=
  {| method := "GET"; query := {[ "url" := "https://example.org/" ]};
     headers := browser_headers; body := "" |}.

Definition req_other : Request :=
  {| method := "GET"; query := {[ "url" := "https://other.com/x" ]};
     headers := browser_headers; body := "" |}.

(** No [url], and an [Origin] header with an empty value. *)
Definition req_empty_origin : Request :=
  {| method := "GET"; query := ∅; headers := {[ "origin" := "" ]}; body := "" |}.

Definition req_preflight : Request :=
  {| method := "OPTIONS"; query := {[ "url" := "not-a-url" ]};
     headers := browser_headers; body := "" |}.

Definition preflight_empty_origin : Request :=
  {| method := "OPTIONS"; query := {[ "url" := target ]};
     headers := {[ "origin" := "" ]}; body := "" |}.

End Sample.

(** The runtime with [process.env.ALLOWLIST] set to [allow]. *)
Definition with_ALLOWLIST (rt : Runtime) (allow : string) : Runtime :=
  {| Buffer_base64_utf8 := Buffer_base64_utf8 rt; JSON_parse := JSON_parse rt;
     URL_parse := URL_parse rt; env_ALLOWLIST := Some allow;
     trim_unicode := trim_unicode rt; toLowerCase_unicode := toLowerCase_unicode rt |}.

(** The names the success path writes itself (lines 122-127). *)
Definition RELAY_SET_NAMES : list string :=
  [ "Access-Control-Allow-Origin"; "Access-Control-Allow-Credentials";
    "Access-Control-Allow-Methods"; "Access-Control-Allow-Headers";
    "Access-Control-Max-Age"; "Access-Control-Expose-Headers" ].

(** The values that the upstream sent under the name [k], in the order
    in which [upstream.headers.forEach] (line 116) yields them. *)
Definition sent_under (k : string) (entries : list (string * string)) : list string :=
  (filter (λ kv, kv.1 = k) entries).*2.

(** The [user-agent] the handler settles on before the overlay: the
    inbound one unless it is absent or empty. *)
Definition settledUserAgent (req : Request) : JsVal :=
  match headers req !! "user-agent" with
  | Some s => if String.eqb s "" then JStr DEFAULT_UA else JStr s
  | None => JStr DEFAULT_UA
  end.

(** ** The five ways a call can go *)

(** The branches of [handler], each with the condition under which it is
    taken; [handler_outcome] below shows the handler always takes one. *)
Inductive Outcome (rt : Runtime) (req : Request) : Eff → Prop :=
| Preflight :
    method req = "OPTIONS" →
    Outcome rt req (res_writeHead 204 (corsHeaders (inboundOrigin req)) (res_end None Return))
| MissingTarget :
    method req ≠ "OPTIONS" →
    truthy_str (query req !! "url") = false →
    Outcome rt req (fail 400 (inboundOrigin req) "Falta el parámetro ?url=")
| InvalidTarget u :
    method req ≠ "OPTIONS" →
    query req !! "url" = Some u → u ≠ "" →
    isHttpUrl rt u = false →
    Outcome rt req (fail 400 (inboundOrigin req) "URL inválida o protocolo no permitido")
| HostNotAllowed u :
    method req ≠ "OPTIONS" →
    query req !! "url" = Some u → u ≠ "" →
    isHttpUrl rt u = true →
    allowedByEnv rt u = Some false →
    Outcome rt req (fail 403 (inboundOrigin req) "Host no permitido por ALLOWLIST")
| Forwarded u :
    passes_validation rt req u →
    Outcome rt req (await_fetch u (mkInit rt req) (relay (inboundOrigin req))).

(** * Properties *)

(** ** JavaScript idioms *)

Lemma truthy_str_true (o : option string) :
  truthy_str o = true ↔ ∃ s, o = Some s ∧ s ≠ "".
Proof.
  destruct o as [s|]; simpl.
  - rewrite negb_true_iff, String.eqb_neq. split; [eauto|].
    by intros (s' & [= <-] & Hne).
  - split; [done|]. by intros (s' & Hs & _).
Qed.

Lemma truthy_str_false (o : option string) :
  truthy_str o = false ↔ o = None ∨ o = Some "".
Proof.
  destruct o as [s|]; simpl.
  - rewrite negb_false_iff, String.eqb_eq. split; [intros ->; by right|].
    by intros [?|[= ->]].
  - split; [by left|done].
Qed.

Lemma or_else_unfold (o : option string) (d : string) :
  or_else o d =
  match o with
  | Some s => if String.eqb s "" then d else s
  | None => d
  end.
Proof. destruct o as [s|]; [|done]. unfold or_else. simpl. by destruct (String.eqb s ""). Qed.

(** ** The copy loops are filters *)

Lemma copyInbound_lookup (h : gmap string string) (k : string) :
  copyInbound h !! k = if is_hop_by_hop k then None else JStr <$> h !! k.
Proof.
  unfold copyInbound.
  apply (map_fold_weak_ind
           (λ r (m : gmap string string),
              r !! k = if is_hop_by_hop k then None else JStr <$> m !! k)).
  - rewrite !lookup_empty. by destruct (is_hop_by_hop k).
  - intros i x m r _ IH. destruct (decide (i = k)) as [->|Hne].
    + rewrite lookup_insert_eq. destruct (is_hop_by_hop k); [done|].
      by rewrite lookup_insert_eq.
    + rewrite (lookup_insert_ne m) by done.
      destruct (is_hop_by_hop i); [done|]. by rewrite lookup_insert_ne.
Qed.

Lemma assign_lookup {V : Type} (k' : string) (v : V) (obj : gmap string V) (k : string) :
  assign k' v obj !! k =
  if decide (k' = "__proto__") then obj !! k else <[k' := v]> obj !! k.
Proof. unfold assign. by case_decide. Qed.

Lemma copyUpstream_lookup (entries : list (string * string)) (k : string) :
  copyUpstream entries !! k =
  if is_hop_by_hop k || bool_decide (k = "__proto__") then None
  else (list_to_map (reverse entries) : gmap string string) !! k.
Proof.
  unfold copyUpstream. induction entries as [|[k' v] entries IH] using rev_ind.
  - simpl. rewrite !lookup_empty. by destruct (_ || _).
  - rewrite foldl_snoc, reverse_snoc. simpl.
    destruct (decide (k' = k)) as [->|Hne].
    + rewrite lookup_insert_eq. destruct (is_hop_by_hop k) eqn:Hhop; simpl.
      * by rewrite IH.
      * rewrite assign_lookup. case_bool_decide as Hp.
        { rewrite decide_True by done. rewrite IH. by rewrite ?bool_decide_eq_true_2. }
        { rewrite decide_False by done. by rewrite lookup_insert_eq. }
    + rewrite (lookup_insert_ne (list_to_map _)) by done. rewrite <- IH.
      destruct (is_hop_by_hop k'); [done|]. rewrite assign_lookup.
      destruct (decide (k' = "__proto__")); [done|]. by rewrite lookup_insert_ne.
Qed.

(** ** The overlay loop

    Without the name [__proto__], the loop is a left-biased union. *)

Lemma Object_entries_NoDup (extra : JsVal) : NoDup (Object_entries extra).*1.
Proof.
  destruct extra as [| | | |l|m]; simpl; try apply NoDup_nil_2.
  - rewrite fmap_imap.
    change (imap (λ n, fst ∘ (λ x : JsVal, (pretty n, x))) l)
      with (imap (λ (n : nat) (_ : JsVal), pretty n : string) l).
    rewrite imap_seq_0. apply (NoDup_fmap_2 _), NoDup_seq.
  - apply NoDup_fst_map_to_list.
Qed.

Lemma foldl_assign_lookup (l : list (string * JsVal)) (base : gmap string JsVal)
    (k : string) :
  foldl (λ acc kv, assign kv.1 kv.2 acc) base l !! k =
  if decide (k = "__proto__") then base !! k
  else ((list_to_map (reverse l) : gmap string JsVal) ∪ base) !! k.
Proof.
  induction l as [|[k' v] l IH] using rev_ind.
  - simpl. rewrite (left_id_L ∅ (∪)). by case_decide.
  - rewrite foldl_snoc, reverse_snoc. simpl. rewrite assign_lookup, <- insert_union_l.
    destruct (decide (k' = k)) as [->|Hne].
    + destruct (decide (k = "__proto__")); [done|]. by rewrite !lookup_insert_eq.
    + rewrite !lookup_insert_ne by done. rewrite IH.
      by destruct (decide (k' = "__proto__")).
Qed.

Lemma overlay_lookup (extra : JsVal) (up : gmap string JsVal) (k : string) :
  overlay extra up !! k =
  if decide (k = "__proto__") then up !! k
  else match (list_to_map (Object_entries extra) : gmap string JsVal) !! k with
       | Some v => Some v
       | None => up !! k
       end.
Proof.
  unfold overlay. rewrite foldl_assign_lookup. case_decide; [done|].
  rewrite lookup_union.
  rewrite (list_to_map_proper (reverse (Object_entries extra)) (Object_entries extra)).
  - destruct (list_to_map (Object_entries extra) !! k); simpl.
    + by rewrite union_Some_l.
    + by rewrite (left_id_L None (∪)).
  - rewrite fmap_reverse, reverse_Permutation. apply Object_entries_NoDup.
  - apply reverse_Permutation.
Qed.

Lemma overlay_proto (extra : JsVal) (up : gmap string JsVal) :
  overlay extra up !! "__proto__" = up !! "__proto__".
Proof. by rewrite overlay_lookup. Qed.

Lemma overlay_entry (extra : JsVal) (up : gmap string JsVal) (k : string) (v : JsVal) :
  (k, v) ∈ Object_entries extra → k ≠ "__proto__" → overlay extra up !! k = Some v.
Proof.
  intros Hin Hk. rewrite overlay_lookup, decide_False by done.
  apply (elem_of_list_to_map (M := gmap string)) in Hin as ->; [done|].
  apply Object_entries_NoDup.
Qed.

Lemma overlay_outside (extra : JsVal) (up : gmap string JsVal) (k : string) :
  k ∉ (Object_entries extra).*1 → overlay extra up !! k = up !! k.
Proof.
  intros Hout. rewrite overlay_lookup. case_decide; [done|].
  by apply (not_elem_of_list_to_map_1 (M := gmap string)) in Hout as ->.
Qed.

Lemma overlay_keeps_names (extra : JsVal) (up : gmap string JsVal) (k : string) :
  is_Some (up !! k) → is_Some (overlay extra up !! k).
Proof.
  intros Hk. rewrite overlay_lookup. case_decide; [done|].
  by destruct (list_to_map (Object_entries extra) !! k).
Qed.

Lemma list_to_map_to_list_lookup (m : gmap string JsVal) (k : string) :
  (list_to_map (map_to_list m) : gmap string JsVal) !! k = m !! k.
Proof. by rewrite list_to_map_to_list. Qed.

Lemma overlay_object (m up : gmap string JsVal) :
  overlay (JObj m) up = delete "__proto__" m ∪ up.
Proof.
  apply map_eq. intros k. rewrite overlay_lookup, lookup_union. simpl.
  rewrite list_to_map_to_list_lookup. case_decide as Hk.
  - subst k. by rewrite lookup_delete_eq, (left_id_L None (∪)).
  - rewrite lookup_delete_ne by done. destruct (m !! k); simpl.
    + by rewrite union_Some_l.
    + by rewrite (left_id_L None (∪)).
Qed.

Lemma overlay_object_lookup (m up : gmap string JsVal) (k : string) (v : JsVal) :
  m !! k = Some v → k ≠ "__proto__" → overlay (JObj m) up !! k = Some v.
Proof.
  intros Hk Hp. rewrite overlay_object. apply lookup_union_Some_l.
  by rewrite lookup_delete_ne.
Qed.

(** ** The outbound header mapping before the overlay *)

Lemma userAgent_copyInbound (h : gmap string string) :
  userAgent (copyInbound h) =
  match h !! "user-agent" with
  | Some s => if String.eqb s "" then JStr DEFAULT_UA else JStr s
  | None => JStr DEFAULT_UA
  end.
Proof.
  unfold userAgent. rewrite copyInbound_lookup.
  change (is_hop_by_hop "user-agent") with false. cbv iota.
  destruct (h !! "user-agent") as [s|]; simpl; [|done].
  by destruct (String.eqb s "").
Qed.

Lemma baseHeaders_lookup (req : Request) (k : string) :
  baseHeaders req !! k =
  if decide (k = "origin") then None
  else if decide (k = "user-agent") then Some (userAgent (copyInbound (headers req)))
  else if is_hop_by_hop k then None
  else JStr <$> headers req !! k.
Proof.
  unfold baseHeaders. cbv zeta.
  destruct (decide (k = "origin")) as [->|Ho]; [by rewrite lookup_delete_eq|].
  rewrite lookup_delete_ne by done.
  destruct (decide (k = "user-agent")) as [->|Hu]; [by rewrite lookup_insert_eq|].
  rewrite lookup_insert_ne by done. apply copyInbound_lookup.
Qed.

(** ** Validation *)

Lemma isHttpUrl_valid (rt : Runtime) (u : string) :
  isHttpUrl rt u = true ↔ valid_http_url rt u.
Proof.
  unfold isHttpUrl, valid_http_url. split.
  - destruct (URL_parse rt u) as [p|]; [|done].
    rewrite orb_true_iff, !String.eqb_eq. eauto.
  - intros (p & -> & Hp). by rewrite orb_true_iff, !String.eqb_eq.
Qed.

Lemma isHttpUrl_invalid (rt : Runtime) (u : string) :
  isHttpUrl rt u = false ↔ ¬ valid_http_url rt u.
Proof. rewrite <- isHttpUrl_valid. by destruct (isHttpUrl rt u). Qed.

(** [new URL(u)] in [allowedByEnv] cannot throw once [isHttpUrl] has
    accepted [u]. *)
Lemma allowedByEnv_defined (rt : Runtime) (u : string) :
  isHttpUrl rt u = true → ∃ b, allowedByEnv rt u = Some b.
Proof.
  unfold isHttpUrl, allowedByEnv.
  destruct (URL_parse rt u) as [p|]; [|done]. intros _.
  destruct (negb _); eauto.
Qed.

Lemma allowedByEnv_unrestricted (rt : Runtime) (u : string) :
  truthy_str (env_ALLOWLIST rt) = false → allowedByEnv rt u = Some true.
Proof. unfold allowedByEnv. by intros ->. Qed.

Lemma allowedByEnv_listed (rt : Runtime) (u allow : string) (parsed : URL) (b : bool) :
  env_ALLOWLIST rt = Some allow → allow ≠ "" →
  URL_parse rt u = Some parsed →
  allowedByEnv rt u = Some b →
  b = true ↔ host_listed rt allow (hostname parsed).
Proof.
  intros Ha Hne Hp. unfold allowedByEnv, host_listed. rewrite Ha, Hp. simpl.
  apply String.eqb_neq in Hne. rewrite Hne. simpl. intros [= <-].
  rewrite bool_decide_eq_true, list_elem_of_fmap. split.
  - intros (e & He & Hin). eauto.
  - intros (e & Hin & He). eauto.
Qed.

Lemma handler_outcome (rt : Runtime) (req : Request) : Outcome rt req (handler rt req).
Proof.
  unfold handler. cbv zeta.
  destruct (String.eqb (method req) "OPTIONS") eqn:Hm.
  { apply String.eqb_eq in Hm. by constructor. }
  apply String.eqb_neq in Hm.
  destruct (truthy_str (query req !! "url")) eqn:Hu; simpl.
  2: { by constructor. }
  apply truthy_str_true in Hu as (u & Hq & Hne). rewrite Hq. simpl.
  destruct (isHttpUrl rt u) eqn:Hh; simpl.
  2: { by econstructor. }
  destruct (allowedByEnv_defined rt u Hh) as [b Hb]. rewrite Hb.
  destruct b.
  - by apply Forwarded.
  - by econstructor.
Qed.

(** The exception branch of [handler] itself, a target that [isHttpUrl]
    accepts and the [new URL] of line 55 rejects, is dead code. *)
Lemma handler_never_throws (rt : Runtime) (req : Request) : handler rt req ≠ Throw.
Proof. by destruct (handler_outcome rt req). Qed.

Lemma handler_forwarded (rt : Runtime) (req : Request) (u : string) :
  passes_validation rt req u →
  handler rt req = await_fetch u (mkInit rt req) (relay (inboundOrigin req)).
Proof.
  intros (Hm & Hq & Hne & Hh & Ha). unfold handler. cbv zeta.
  apply String.eqb_neq in Hm. rewrite Hm, Hq. simpl.
  apply String.eqb_neq in Hne. rewrite Hne. simpl. by rewrite Hh, Ha.
Qed.

Lemma handler_preflight (rt : Runtime) (req : Request) :
  method req = "OPTIONS" →
  handler rt req =
  res_writeHead 204 (corsHeaders (inboundOrigin req)) (res_end None Return).
Proof. intros Hm. unfold handler. apply String.eqb_eq in Hm. by rewrite Hm. Qed.

Lemma handler_missing (rt : Runtime) (req : Request) :
  method req ≠ "OPTIONS" →
  truthy_str (query req !! "url") = false →
  handler rt req = fail 400 (inboundOrigin req) "Falta el parámetro ?url=".
Proof.
  intros Hm Hu. unfold handler. apply String.eqb_neq in Hm. by rewrite Hm, Hu.
Qed.

Lemma handler_invalid (rt : Runtime) (req : Request) (u : string) :
  method req ≠ "OPTIONS" →
  query req !! "url" = Some u → u ≠ "" →
  isHttpUrl rt u = false →
  handler rt req = fail 400 (inboundOrigin req) "URL inválida o protocolo no permitido".
Proof.
  intros Hm Hq Hne Hh. unfold handler. cbv zeta.
  apply String.eqb_neq in Hm. rewrite Hm, Hq. simpl.
  apply String.eqb_neq in Hne. rewrite Hne. simpl. by rewrite Hh.
Qed.

Lemma handler_not_allowed (rt : Runtime) (req : Request) (u : string) :
  method req ≠ "OPTIONS" →
  query req !! "url" = Some u → u ≠ "" →
  isHttpUrl rt u = true →
  allowedByEnv rt u = Some false →
  handler rt req = fail 403 (inboundOrigin req) "Host no permitido por ALLOWLIST".
Proof.
  intros Hm Hq Hne Hh Ha. unfold handler. cbv zeta.
  apply String.eqb_neq in Hm. rewrite Hm, Hq. simpl.
  apply String.eqb_neq in Hne. rewrite Hne. simpl. by rewrite Hh, Ha.
Qed.

Lemma fails_validation_outcome (rt : Runtime) (req : Request) :
  fails_validation rt req →
  ∃ st msg, (st = 400 ∨ st = 403) ∧ handler rt req = fail st (inboundOrigin req) msg.
Proof.
  intros [Hm Hfail]. destruct (handler_outcome rt req) as [Ho| | | |u Hp].
  - done.
  - eauto.
  - eauto.
  - eauto.
  - destruct Hp as (_ & Hq & Hne & Hh & Ha). rewrite Hq in Hfail. simpl in Hfail.
    destruct Hfail as [Hf|[Hf|Hf]]; [|congruence..].
    apply String.eqb_neq in Hne. by rewrite Hne in Hf.
Qed.

(** ** The header mappings of the responses *)

Lemma corsHeaders_allow_origin (origin : string) :
  corsHeaders origin !! "Access-Control-Allow-Origin" = Some origin.
Proof. by vm_compute. Qed.

Lemma corsHeaders_fixed (origin : string) : fixed_cors (corsHeaders origin).
Proof. by vm_compute. Qed.

Lemma jsonHeaders_lookup (origin k : string) :
  jsonHeaders origin !! k =
  match corsHeaders origin !! k with
  | Some v => Some v
  | None => if decide (k = "Content-Type") then Some "application/json" else None
  end.
Proof.
  unfold jsonHeaders. rewrite lookup_union.
  destruct (corsHeaders origin !! k); simpl.
  - by rewrite (union_Some_l).
  - rewrite (left_id_L None (∪)). rewrite lookup_singleton. by repeat case_decide.
Qed.

Lemma jsonHeaders_allow_origin (origin : string) :
  jsonHeaders origin !! "Access-Control-Allow-Origin" = Some origin.
Proof. by rewrite jsonHeaders_lookup, corsHeaders_allow_origin. Qed.

Lemma jsonHeaders_fixed (origin : string) : fixed_cors (jsonHeaders origin).
Proof.
  unfold fixed_cors. rewrite !jsonHeaders_lookup.
  destruct (corsHeaders_fixed origin) as (-> & -> & -> & ->). done.
Qed.

Lemma jsonHeaders_content_type (origin : string) :
  jsonHeaders origin !! "Content-Type" = Some "application/json".
Proof. by vm_compute. Qed.

Lemma corsHeaders_lookup (origin k : string) :
  corsHeaders origin !! k =
  if decide (k = "Access-Control-Allow-Origin") then Some origin
  else if decide (k = "Access-Control-Allow-Credentials") then Some "false"
  else if decide (k = "Access-Control-Allow-Methods") then
    Some "GET,POST,PUT,PATCH,DELETE,OPTIONS"
  else if decide (k = "Access-Control-Allow-Headers") then
    Some "Content-Type, Authorization, X-Requested-With, X-CSRF-Token, Accept, Origin"
  else if decide (k = "Access-Control-Max-Age") then Some "86400"
  else None.
Proof.
  unfold corsHeaders.
  do 4 (case_decide; [subst k; by vm_compute|rewrite lookup_insert_ne by done]).
  case_decide; [subst k; by vm_compute|by rewrite lookup_singleton_ne].
Qed.

(** The relayed mapping, key by key: the expose default or the kept
    value under the exact name, the cross-origin set, and below them the
    upstream headers that are not hop-by-hop, each with the value sent
    last; the name [__proto__] is never stored. *)
Lemma relayHeaders_lookup (origin : string) (up : Upstream) (k : string) :
  relayHeaders origin up !! k =
  if decide (k = "Access-Control-Expose-Headers") then
    Some (or_else (up_headers up !! "Access-Control-Expose-Headers") DEFAULT_EXPOSE)
  else
    match corsHeaders origin !! k with
    | Some v => Some v
    | None =>
        if is_hop_by_hop k || bool_decide (k = "__proto__") then None
        else up_headers up !! k
    end.
Proof.
  unfold relayHeaders. cbv zeta. case_decide as Hk.
  - subst k. rewrite lookup_insert_eq. rewrite !lookup_insert_ne by done.
    rewrite copyUpstream_lookup.
    by change (is_hop_by_hop "Access-Control-Expose-Headers") with false.
  - rewrite lookup_insert_ne by done.
    destruct (decide (k = "Access-Control-Max-Age")) as [->|?];
      [rewrite lookup_insert_eq; by vm_compute|rewrite lookup_insert_ne by done].
    destruct (decide (k = "Access-Control-Allow-Headers")) as [->|?];
      [rewrite lookup_insert_eq; by vm_compute|rewrite lookup_insert_ne by done].
    destruct (decide (k = "Access-Control-Allow-Methods")) as [->|?];
      [rewrite lookup_insert_eq; by vm_compute|rewrite lookup_insert_ne by done].
    destruct (decide (k = "Access-Control-Allow-Credentials")) as [->|?];
      [rewrite lookup_insert_eq; by vm_compute|rewrite lookup_insert_ne by done].
    destruct (decide (k = "Access-Control-Allow-Origin")) as [->|?];
      [rewrite lookup_insert_eq; by vm_compute|rewrite lookup_insert_ne by done].
    rewrite (corsHeaders_lookup origin k), !decide_False by done.
    apply copyUpstream_lookup.
Qed.

Lemma relayHeaders_allow_origin (origin : string) (up : Upstream) :
  relayHeaders origin up !! "Access-Control-Allow-Origin" = Some origin.
Proof. by rewrite relayHeaders_lookup. Qed.

Lemma relayHeaders_fixed (origin : string) (up : Upstream) :
  fixed_cors (relayHeaders origin up).
Proof. unfold fixed_cors. by rewrite !relayHeaders_lookup. Qed.

Create HintDb relay.

#[local] Hint Resolve corsHeaders_allow_origin corsHeaders_fixed
  jsonHeaders_allow_origin jsonHeaders_fixed
  relayHeaders_allow_origin relayHeaders_fixed : relay.

(** ** Runs *)

(** Closes a goal whose hypothesis places a [fetch] event in a list of
    events that are not fetches. *)
Ltac no_fetch_event :=
  let H := fresh "Hev" in
  rewrite !elem_of_cons, elem_of_nil; intros H;
  repeat (destruct H as [H|H]; try discriminate); done.

Lemma run_fetch (net : string → RequestInit → FetchResult) (u : string)
    (i : RequestInit) (k : FetchResult → Eff) :
  run net (await_fetch u i k) = EvFetch u i :: run net (k (net u i)).
Proof. done. Qed.

Lemma run_fail (net : string → RequestInit → FetchResult) (st : Z) (origin msg : string) :
  run net (fail st origin msg) = error_response st origin msg.
Proof. done. Qed.

Lemma run_relay_rejected (net : string → RequestInit → FetchResult) (origin msg : string) :
  run net (relay origin (Rejected msg)) =
  [EvWriteHead 502 (jsonHeaders origin);
   EvEnd (Some (JSON_stringify
                  (JObj {[ "error" := JStr "Upstream error"; "detail" := JStr msg ]})))].
Proof. done. Qed.

(** What follows the head on the success path: an end without data, the
    piped body, the piped body and the destruction of the response when
    the stream fails, or the exception of the second [writeHead] when the
    body has no [pipe]. *)
Lemma run_relay_resolved (net : string → RequestInit → FetchResult) (origin : string)
    (up : Upstream) :
  run net (relay origin (Resolved up)) =
  EvWriteHead (up_status up) (relayHeaders origin up) ::
  match up_body up with
  | None => [EvEnd None]
  | Some (NodeStream b None) => [EvPipe b]
  | Some (NodeStream b (Some e)) => [EvPipe b; EvDestroy e]
  | Some (WebStream _) => [EvThrow]
  end.
Proof.
  unfold run. simpl. by destruct (up_body up) as [[b [e|]|b]|].
Qed.

Lemma relay_no_fetch (net : string → RequestInit → FetchResult) (origin : string)
    (r : FetchResult) (u : string) (i : RequestInit) :
  EvFetch u i ∉ run net (relay origin r).
Proof.
  destruct r as [up|msg].
  - rewrite run_relay_resolved. destruct (up_body up) as [[b [e|]|b]|]; no_fetch_event.
  - rewrite run_relay_rejected. no_fetch_event.
Qed.

Lemma fail_no_fetch (net : string → RequestInit → FetchResult) (st : Z)
    (origin msg u : string) (i : RequestInit) :
  EvFetch u i ∉ run net (fail st origin msg).
Proof.
  rewrite run_fail. unfold error_response. no_fetch_event.
Qed.

(** Whenever the run contains a [fetch], the request passed validation,
    and the call carries the target and the [init] of lines 105-110. *)
Lemma fetch_in_run (rt : Runtime) (net : string → RequestInit → FetchResult)
    (req : Request) (u : string) (i : RequestInit) :
  EvFetch u i ∈ run net (handler rt req) →
  passes_validation rt req u ∧ i = mkInit rt req.
Proof.
  destruct (handler_outcome rt req) as [Ho| | | |u' Hp].
  - unfold run. simpl. no_fetch_event.
  - intros Hin. by apply fail_no_fetch in Hin.
  - intros Hin. by apply fail_no_fetch in Hin.
  - intros Hin. by apply fail_no_fetch in Hin.
  - rewrite run_fetch, elem_of_cons. intros [[= -> ->]|Hin]; [done|].
    by apply relay_no_fetch in Hin.
Qed.

Lemma run_forwarded (rt : Runtime) (net : string → RequestInit → FetchResult)
    (req : Request) (u : string) :
  passes_validation rt req u →
  run net (handler rt req) =
  EvFetch u (mkInit rt req) ::
  run net (relay (inboundOrigin req) (net u (mkInit rt req))).
Proof. intros Hp. by rewrite (handler_forwarded rt req u Hp). Qed.

(** ** The extra headers *)

Lemma decodeHeaderBase64_Some (rt : Runtime) (h64 : string) (v : JsVal) :
  decodeHeaderBase64 rt h64 = Some v ↔
  JSON_parse rt (Buffer_base64_utf8 rt h64) = Some v ∧
  ((∃ m, v = JObj m) ∨ (∃ l, v = JArr l)).
Proof.
  unfold decodeHeaderBase64. split.
  - destruct (JSON_parse rt _) as [obj|]; [|done].
    destruct obj; simpl; try done; try (destruct b; done);
      try (destruct (negb _); done); intros [= <-]; eauto.
  - intros [-> [[m ->]|[l ->]]]; done.
Qed.

Lemma extraHeaders_Some (rt : Runtime) (req : Request) (v : JsVal) :
  extraHeaders rt req = Some v ↔
  ∃ s, query req !! "h64" = Some s ∧ s ≠ "" ∧
       JSON_parse rt (Buffer_base64_utf8 rt s) = Some v ∧
       ((∃ m, v = JObj m) ∨ (∃ l, v = JArr l)).
Proof.
  unfold extraHeaders. cbv zeta. split.
  - destruct (truthy_str (query req !! "h64")) eqn:Ht; [|done].
    apply truthy_str_true in Ht as (s & Hs & Hne). rewrite Hs. simpl.
    rewrite decodeHeaderBase64_Some. intros [? ?]. eauto.
  - intros (s & Hs & Hne & Hparse & Hshape). rewrite Hs. simpl.
    apply String.eqb_neq in Hne. rewrite Hne. simpl.
    by apply decodeHeaderBase64_Some.
Qed.

Lemma extraHeaders_without_h64 (rt : Runtime) (req : Request) :
  extraHeaders rt (without_h64 req) = None.
Proof. unfold extraHeaders, without_h64. simpl. by rewrite lookup_delete_eq. Qed.

Lemma upstreamHeaders_object (rt : Runtime) (req : Request) (m : gmap string JsVal) :
  extraHeaders rt req = Some (JObj m) →
  upstreamHeaders rt req = delete "__proto__" m ∪ baseHeaders req.
Proof. intros He. unfold upstreamHeaders. rewrite He. apply overlay_object. Qed.

Lemma upstreamHeaders_absent (rt : Runtime) (req : Request) :
  extraHeaders rt req = None → upstreamHeaders rt req = baseHeaders req.
Proof. intros He. unfold upstreamHeaders. by rewrite He. Qed.

(** * The claims *)

(** ** Cross-origin headers on every path *)

(** C1 (as amended).  Whatever the request, the runtime and the answer
    of the network, the handler writes a response head, and its header
    mapping holds the fixed cross-origin set with
    [Access-Control-Allow-Credentials] equal to ["false"]; its
    [Access-Control-Allow-Origin] is the inbound [origin] value when that
    header is present and not empty, and ["*"] when the header is absent
    or empty.  The status is 204, 400, 403 or 502, or the status of the
    upstream response that is relayed. *)
Theorem cors_headers_on_every_path (rt : Runtime)
    (net : string → RequestInit → FetchResult) (req : Request) :
  ∃ st h, response_head (run net (handler rt req)) = Some (st, h) ∧
          h !! "Access-Control-Allow-Origin" =
            Some (match headers req !! "origin" with
                  | Some o => if String.eqb o "" then "*" else o
                  | None => "*"
                  end) ∧
          fixed_cors h ∧
          (st = 204 ∨ st = 400 ∨ st = 403 ∨ st = 502 ∨
           ∃ u up, net u (mkInit rt req) = Resolved up ∧ st = up_status up).
Proof.
  rewrite <- or_else_unfold. fold (inboundOrigin req).
  destruct (handler_outcome rt req) as [Ho| | | |u Hp]; simpl.
  1-4: eexists _, _; split; [reflexivity|]; split; [auto with relay|];
       split; [auto with relay|tauto].
  destruct (net u (mkInit rt req)) as [up|msg] eqn:Hnet;
    eexists _, _; (split; [reflexivity|]); (split; [auto with relay|]);
    (split; [auto with relay|]).
  - do 4 right. eauto.
  - tauto.
Qed.

(** C1, counterexample.  A request whose [Origin] header is present with
    an empty value is answered with [Access-Control-Allow-Origin: *],
    not with the header's value. *)
Lemma cors_empty_origin_counterexample :
  headers Sample.req_empty_origin !! "origin" = Some "" ∧
  response_head (run Sample.net_ok (handler Sample.node_open Sample.req_empty_origin)) =
    Some (400, jsonHeaders "*") ∧
  jsonHeaders "*" !! "Access-Control-Allow-Origin" = Some "*" ∧
  ¬ cors_on_every_path Sample.node_open Sample.net_ok Sample.req_empty_origin.
Proof.
  assert (response_head
            (run Sample.net_ok (handler Sample.node_open Sample.req_empty_origin)) =
          Some (400, jsonHeaders "*")) as Hrun.
  { rewrite handler_missing; [reflexivity|discriminate|reflexivity]. }
  split; [reflexivity|]. split; [exact Hrun|].
  split; [apply jsonHeaders_allow_origin|].
  intros (st & h & Hhead & Hecho & _). rewrite Hrun in Hhead.
  injection Hhead as _ <-. unfold echoes_present_origin in Hecho.
  rewrite jsonHeaders_allow_origin in Hecho. vm_compute in Hecho. discriminate.
Qed.

(** ** Preflight *)

(** C9 (as amended).  A request with method [OPTIONS] is answered with
    status 204, no body, and the cross-origin header set computed from
    the inbound [origin] header: its value when present and not empty,
    ["*"] when absent or empty.  The run consists of these two writes
    whatever the query, the runtime and the network are: nothing is
    validated and no upstream call is issued. *)
Theorem preflight_response (rt : Runtime) (net : string → RequestInit → FetchResult)
    (req : Request) :
  method req = "OPTIONS" →
  run net (handler rt req) =
    [EvWriteHead 204
       (corsHeaders (match headers req !! "origin" with
                     | Some o => if String.eqb o "" then "*" else o
                     | None => "*"
                     end));
     EvEnd None] ∧
  ¬ calls_upstream (run net (handler rt req)).
Proof.
  intros Hm. rewrite <- or_else_unfold. fold (inboundOrigin req).
  rewrite (handler_preflight rt req Hm). split; [done|]. intros (u & i & Hin).
  unfold run in Hin. simpl in Hin. revert Hin. no_fetch_event.
Qed.

(** A preflight is answered without looking at its [url]. *)
Lemma preflight_response_witness :
  run Sample.net_down (handler Sample.node_listed Sample.req_preflight) =
    [EvWriteHead 204 (corsHeaders "https://app.example"); EvEnd None] ∧
  ¬ calls_upstream (run Sample.net_down (handler Sample.node_listed Sample.req_preflight)).
Proof.
  exact (preflight_response Sample.node_listed Sample.net_down Sample.req_preflight eq_refl).
Defined.

(** C9, counterexample.  A preflight whose [Origin] header is present
    with an empty value is answered with [Access-Control-Allow-Origin: *]. *)
Lemma preflight_empty_origin_counterexample :
  headers Sample.preflight_empty_origin !! "origin" = Some "" ∧
  run Sample.net_ok (handler Sample.node_open Sample.preflight_empty_origin) =
    [EvWriteHead 204 (corsHeaders "*"); EvEnd None] ∧
  ¬ preflight_as_specified Sample.node_open Sample.net_ok Sample.preflight_empty_origin.
Proof.
  assert (run Sample.net_ok (handler Sample.node_open Sample.preflight_empty_origin) =
          [EvWriteHead 204 (corsHeaders "*"); EvEnd None]) as Hrun.
  { by rewrite handler_preflight. }
  split; [reflexivity|]. split; [exact Hrun|].
  intros (h & Hrun' & Hecho & _). rewrite Hrun in Hrun'.
  injection Hrun' as <-. unfold echoes_present_origin in Hecho.
  rewrite corsHeaders_allow_origin in Hecho. vm_compute in Hecho. discriminate.
Qed.

(** ** Target validation *)

(** C4.  For a request whose method is not [OPTIONS]: when the [url]
    query parameter is missing, and when it is present but is not a
    valid absolute URL with scheme [http] or [https], the response is
    status 400 with the JSON content type and a JSON object with an
    [error] member as its body, and nothing else happens. *)
Theorem missing_or_invalid_url_400 (rt : Runtime)
    (net : string → RequestInit → FetchResult) (req : Request) :
  method req ≠ "OPTIONS" →
  (query req !! "url" = None ∨
   ∃ u, query req !! "url" = Some u ∧ ¬ valid_http_url rt u) →
  ∃ msg, run net (handler rt req) = error_response 400 (inboundOrigin req) msg.
Proof.
  intros Hm Hurl.
  assert (∀ u, query req !! "url" = Some u → isHttpUrl rt u = true → False) as Hno.
  { intros u Hq Hh. destruct Hurl as [Hnone|(u' & Hq' & Hinv)]; [congruence|].
    rewrite Hq in Hq'. injection Hq' as <-. by apply isHttpUrl_valid in Hh. }
  destruct (handler_outcome rt req) as [Ho| | | |u Hp].
  - done.
  - eexists. apply run_fail.
  - eexists. apply run_fail.
  - exfalso. eauto.
  - exfalso. destruct Hp as (_ & Hq & _ & Hh & _). eauto.
Qed.

(** [ftp://example.com] parses, but its scheme is not accepted. *)
Lemma missing_or_invalid_url_400_witness :
  ∃ msg, run Sample.net_ok (handler Sample.node_open Sample.req_ftp) =
         error_response 400 "https://app.example" msg.
Proof.
  apply (missing_or_invalid_url_400 Sample.node_open Sample.net_ok Sample.req_ftp).
  - discriminate.
  - right. exists "ftp://example.com". split; [reflexivity|].
    intros (parsed & Hparse & Hscheme). vm_compute in Hparse.
    injection Hparse as <-. destruct Hscheme; discriminate.
Defined.

(** The two invalid targets named by the specification. *)
Example not_a_url_400 (h : gmap string string) :
  run Sample.net_ok
      (handler Sample.node_open
         {| method := "GET"; query := {[ "url" := "not-a-url" ]}; headers := h; body := "" |}) =
  error_response 400 (or_else (h !! "origin") "*") "URL inválida o protocolo no permitido".
Proof.
  rewrite (handler_invalid _ _ "not-a-url");
    [reflexivity|discriminate|reflexivity|discriminate|reflexivity].
Qed.

Example ftp_url_400 :
  run Sample.net_ok (handler Sample.node_open Sample.req_ftp) =
  error_response 400 "https://app.example" "URL inválida o protocolo no permitido".
Proof.
  rewrite (handler_invalid _ _ "ftp://example.com");
    [reflexivity|discriminate|reflexivity|discriminate|reflexivity].
Qed.

(** ** The allow-list *)

Lemma host_listed_bool (rt : Runtime) (allow host : string) :
  host_listed rt allow host ↔
  bool_decide (toLowerCase host ∈
               (λ s, String_toLowerCase rt (String_trim rt s)) <$> split "," allow) = true.
Proof.
  unfold host_listed. rewrite bool_decide_eq_true, list_elem_of_fmap. split.
  - intros (e & Hin & He). eauto.
  - intros (e & He & Hin). eauto.
Qed.

Lemma passes_validation_forwards (rt : Runtime) (net : string → RequestInit → FetchResult)
    (req : Request) (u : string) :
  passes_validation rt req u → forwards rt net req u.
Proof. intros Hp. eexists. by apply run_forwarded. Qed.

(** *** Strings of ASCII *)

Lemma toLowerCase_ascii_nat (c : ascii) :
  nat_of_ascii (toLowerCase_ascii c) =
  if ((65 <=? nat_of_ascii c) && (nat_of_ascii c <=? 90))%nat
  then (nat_of_ascii c + 32)%nat else nat_of_ascii c.
Proof.
  unfold toLowerCase_ascii.
  destruct ((65 <=? nat_of_ascii c) && (nat_of_ascii c <=? 90))%nat eqn:Hc; [|done].
  apply andb_true_iff in Hc as [_ Hc]. apply Nat.leb_le in Hc.
  apply nat_ascii_embedding. lia.
Qed.

Lemma nat_of_ascii_inj (a b : ascii) : nat_of_ascii a = nat_of_ascii b → a = b.
Proof.
  intros H. rewrite <- (ascii_nat_embedding a), <- (ascii_nat_embedding b). by rewrite H.
Qed.

Lemma same_ignoring_case_lower (a b : ascii) :
  same_ignoring_case a b = true ↔ toLowerCase_ascii a = toLowerCase_ascii b.
Proof.
  assert (toLowerCase_ascii a = toLowerCase_ascii b ↔
          nat_of_ascii (toLowerCase_ascii a) = nat_of_ascii (toLowerCase_ascii b)) as ->.
  { split; [by intros ->|apply nat_of_ascii_inj]. }
  rewrite !toLowerCase_ascii_nat. unfold same_ignoring_case.
  rewrite !orb_true_iff, !andb_true_iff, !Nat.eqb_eq, !Nat.leb_le.
  destruct (Nat.leb_spec 65 (nat_of_ascii a)), (Nat.leb_spec (nat_of_ascii a) 90),
           (Nat.leb_spec 65 (nat_of_ascii b)), (Nat.leb_spec (nat_of_ascii b) 90);
    simpl; lia.
Qed.

(** [toLowerCase] decides equality up to the case of the letters. *)
Lemma equal_ignoring_case_lower (s t : string) :
  equal_ignoring_case s t = true ↔ toLowerCase s = toLowerCase t.
Proof.
  revert t. induction s as [|a s IH]; intros [|b t]; simpl; try done.
  rewrite andb_true_iff, same_ignoring_case_lower, IH. split.
  - by intros [-> ->].
  - by intros [= -> ->].
Qed.

Lemma ascii_only_cons (c : ascii) (s : string) :
  ascii_only (String c s) = true ↔
  (nat_of_ascii c <? 128)%nat = true ∧ ascii_only s = true.
Proof. simpl. apply andb_true_iff. Qed.

Lemma trimStart_ascii (s : string) :
  ascii_only s = true → ascii_only (trimStart s) = true.
Proof.
  induction s as [|c s IH]; [done|]. intros H. simpl.
  destruct (is_space c); [|done]. apply IH. by apply ascii_only_cons in H as [_ H].
Qed.

Lemma trimEnd_ascii (s : string) :
  ascii_only s = true → ascii_only (trimEnd s) = true.
Proof.
  induction s as [|c s IH]; [done|]. intros H. apply ascii_only_cons in H as [Hc H].
  simpl. destruct (is_space c && String.eqb (trimEnd s) ""); [done|].
  apply ascii_only_cons. auto.
Qed.

Lemma split_ascii (sep : ascii) (s : string) :
  ascii_only s = true → Forall (λ e, ascii_only e = true) (split sep s).
Proof.
  induction s as [|c s IH]; intros H; simpl.
  - by constructor.
  - apply ascii_only_cons in H as [Hc H]. specialize (IH H).
    destruct (Ascii.eqb c sep); [by constructor|].
    destruct (split sep s) as [|w ws]; [by repeat constructor; apply ascii_only_cons|].
    apply Forall_cons in IH as [Hw Hws]. constructor; [|done].
    by apply ascii_only_cons.
Qed.

(** On an ASCII entry the two built-ins of line 56 are the byte-wise
    ones. *)
Lemma entry_ascii (rt : Runtime) (e : string) :
  ascii_only e = true →
  String_toLowerCase rt (String_trim rt e) = toLowerCase (trim e).
Proof.
  intros H. unfold String_trim, String_toLowerCase. rewrite H.
  assert (ascii_only (trim e) = true) as ->; [|done].
  by apply trimEnd_ascii, trimStart_ascii.
Qed.

(** For an allow-list of ASCII, the test of line 56 says that the host
    is, the case of letters apart, one of the entries without the white
    space around them. *)
Lemma host_listed_ascii (rt : Runtime) (allow host : string) :
  ascii_only allow = true →
  host_listed rt allow host ↔
  ∃ entry, entry ∈ split "," allow ∧ equal_ignoring_case (trim entry) host = true.
Proof.
  intros H. pose proof (split_ascii "," allow H) as Hall.
  rewrite Forall_forall in Hall. unfold host_listed.
  split; intros (e & Hin & He); exists e; (split; [done|]).
  - apply equal_ignoring_case_lower. by rewrite <- (entry_ascii rt e) by auto.
  - rewrite (entry_ascii rt e) by auto. by apply equal_ignoring_case_lower.
Qed.

(** C5 (as amended).  For a request whose method is not [OPTIONS] and
    whose [url] parses to an [http] or [https] URL: when [ALLOWLIST] is
    unset or is the empty string, the request is forwarded whatever the
    host.  Otherwise it is forwarded when the lower-cased host equals one
    of the comma-separated entries, each trimmed of the white space
    around it and lower-cased, and when it equals none the response is
    status 403 with a JSON error body.  Whole strings are compared: no
    wildcard, no subdomain.  For an allow-list of ASCII the test is that
    the host equals a trimmed entry, the case of the letters apart. *)
Theorem allow_list_decides (rt : Runtime) (net : string → RequestInit → FetchResult)
    (req : Request) (u : string) (parsed : URL) :
  method req ≠ "OPTIONS" →
  query req !! "url" = Some u → u ≠ "" →
  URL_parse rt u = Some parsed →
  protocol parsed = "http:" ∨ protocol parsed = "https:" →
  (env_ALLOWLIST rt = None ∨ env_ALLOWLIST rt = Some "" → forwards rt net req u) ∧
  (∀ allow, env_ALLOWLIST rt = Some allow → allow ≠ "" →
     (host_listed rt allow (hostname parsed) → forwards rt net req u) ∧
     (¬ host_listed rt allow (hostname parsed) →
      ∃ msg, run net (handler rt req) = error_response 403 (inboundOrigin req) msg) ∧
     (ascii_only allow = true →
      host_listed rt allow (hostname parsed) ↔
      ∃ entry, entry ∈ split "," allow ∧
               equal_ignoring_case (trim entry) (hostname parsed) = true)).
Proof.
  intros Hm Hq Hne Hparse Hscheme.
  assert (isHttpUrl rt u = true) as Hh by (apply isHttpUrl_valid; by exists parsed).
  assert (allowedByEnv rt u = Some true → forwards rt net req u) as Hfwd.
  { intros Ha. by apply passes_validation_forwards. }
  split.
  - intros Hunset. apply Hfwd, allowedByEnv_unrestricted.
    by apply truthy_str_false.
  - intros allow Ha Hallow.
    destruct (allowedByEnv_defined rt u Hh) as [b Hb].
    pose proof (allowedByEnv_listed rt u allow parsed b Ha Hallow Hparse Hb) as Hiff.
    split; [|split].
    + intros Hlisted. apply Hfwd. apply Hiff in Hlisted. by subst b.
    + intros Hnot. destruct b; [by destruct Hnot; apply Hiff|].
      exists "Host no permitido por ALLOWLIST".
      by rewrite (handler_not_allowed rt req u).
    + apply host_listed_ascii.
Qed.

(** With [ALLOWLIST=api.example.com, Example.ORG], a request for
    [https://example.org/] is forwarded: the second entry, a blank and
    the host in another case, names it.  A request for
    [https://other.com/x] is answered 403. *)
Lemma allow_list_decides_witness :
  split "," "api.example.com, Example.ORG" = ["api.example.com"; " Example.ORG"] ∧
  forwards Sample.node_listed Sample.net_ok Sample.req_org "https://example.org/" ∧
  ∃ msg, run Sample.net_ok (handler Sample.node_listed Sample.req_other) =
         error_response 403 "https://app.example" msg.
Proof.
  split; [reflexivity|]. split.
  - destruct (allow_list_decides Sample.node_listed Sample.net_ok Sample.req_org
                "https://example.org/" {| protocol := "https:"; hostname := "example.org" |})
      as [_ Hlisted].
    + discriminate.
    + reflexivity.
    + discriminate.
    + reflexivity.
    + right. reflexivity.
    + destruct (Hlisted "api.example.com, Example.ORG") as (Hyes & _ & Hascii);
        [reflexivity|discriminate|].
      apply Hyes, Hascii; [reflexivity|].
      exists " Example.ORG". split; [|reflexivity].
      right. left.
  - destruct (allow_list_decides Sample.node_listed Sample.net_ok Sample.req_other
                "https://other.com/x" {| protocol := "https:"; hostname := "other.com" |})
      as [_ Hlisted].
    + discriminate.
    + reflexivity.
    + discriminate.
    + reflexivity.
    + right. reflexivity.
    + destruct (Hlisted "api.example.com, Example.ORG") as (_ & Hno & Hascii);
        [reflexivity|discriminate|].
      apply Hno. intros Hin. apply Hascii in Hin as (entry & Hin & Heq); [|reflexivity].
      change (split "," "api.example.com, Example.ORG")
        with ["api.example.com"; " Example.ORG"] in Hin.
      apply elem_of_cons in Hin as [->|Hin]; [discriminate Heq|].
      apply list_elem_of_singleton in Hin as ->. discriminate Heq.
Defined.

Lemma passes_validation_sample_empty_list :
  passes_validation (with_ALLOWLIST Sample.node_open "") Sample.req_get Sample.target.
Proof. repeat split; try discriminate; by vm_compute. Qed.

Lemma passes_validation_sample_spaced_list :
  passes_validation (with_ALLOWLIST Sample.node_open "other.com, api.example.com")
    Sample.req_get Sample.target.
Proof. repeat split; try discriminate; by vm_compute. Qed.

(** C5, counterexample.  With [ALLOWLIST] set to the empty string the
    request is forwarded although the list has no entry equal to the
    host; and with [ALLOWLIST=other.com, api.example.com] it is forwarded
    although the second entry, a blank followed by the host, is not equal
    to the host. *)
Lemma allow_list_counterexample :
  (env_ALLOWLIST (with_ALLOWLIST Sample.node_open "") = Some "" ∧
   forwards (with_ALLOWLIST Sample.node_open "") Sample.net_ok Sample.req_get
     Sample.target ∧
   ¬ allow_list_exact_match (with_ALLOWLIST Sample.node_open "") Sample.net_ok
       Sample.req_get Sample.target
       {| protocol := "https:"; hostname := "api.example.com" |}) ∧
  (split "," "other.com, api.example.com" = ["other.com"; " api.example.com"] ∧
   forwards (with_ALLOWLIST Sample.node_open "other.com, api.example.com") Sample.net_ok
     Sample.req_get Sample.target ∧
   ¬ allow_list_exact_match (with_ALLOWLIST Sample.node_open "other.com, api.example.com")
       Sample.net_ok Sample.req_get Sample.target
       {| protocol := "https:"; hostname := "api.example.com" |}).
Proof.
  split.
  - pose proof (passes_validation_forwards _ Sample.net_ok _ _
                  passes_validation_sample_empty_list) as Hfw.
    split; [reflexivity|]. split; [exact Hfw|].
    unfold allow_list_exact_match. simpl. intros [Hentry _].
    destruct (Hentry Hfw) as (entry & Hin & Heq). simpl in Hin.
    apply list_elem_of_singleton in Hin as ->. vm_compute in Heq. discriminate.
  - pose proof (passes_validation_forwards _ Sample.net_ok _ _
                  passes_validation_sample_spaced_list) as Hfw.
    split; [reflexivity|]. split; [exact Hfw|].
    unfold allow_list_exact_match. simpl. intros [Hentry _].
    destruct (Hentry Hfw) as (entry & Hin & Heq).
    change (split "," "other.com, api.example.com")
      with ["other.com"; " api.example.com"] in Hin.
    apply elem_of_cons in Hin as [->|Hin]; [vm_compute in Heq; discriminate|].
    apply list_elem_of_singleton in Hin as ->. vm_compute in Heq. discriminate.
Qed.

(** Entries are compared without regard to case and surrounding blanks. *)
Example host_listed_any_case :
  host_listed Sample.node_open "api.example.com, Example.ORG" "EXAMPLE.org".
Proof. apply host_listed_bool. by vm_compute. Qed.

(** An entry does not admit its subdomains. *)
Example host_listed_no_subdomain :
  ¬ host_listed Sample.node_open "example.com" "api.example.com".
Proof. rewrite host_listed_bool. by vm_compute. Qed.

(** White space beyond ASCII is trimmed as well: an entry behind a
    no-break space admits its host. *)
Example host_listed_behind_nbsp :
  allowedByEnv (with_ALLOWLIST Sample.node_open ("other.com," +:+ Sample.nbsp_entry))
    Sample.target = Some true.
Proof. vm_compute. reflexivity. Qed.

Example other_host_403 :
  run Sample.net_ok (handler Sample.node_listed Sample.req_other) =
  error_response 403 "https://app.example" "Host no permitido por ALLOWLIST".
Proof.
  rewrite (handler_not_allowed _ _ "https://other.com/x");
    [reflexivity|discriminate|reflexivity|discriminate|reflexivity|].
  vm_compute. reflexivity.
Qed.

(** ** Upstream failure and short-circuit *)

(** C6.  When a request passes validation and the upstream call fails
    with message [msg], the response is status 502 with the JSON body
    [{"error": "Upstream error", "detail": msg}] and the cross-origin
    header set; and when a request fails validation (missing url, invalid
    url or disallowed host), the run contains no upstream call. *)
Theorem upstream_failure_502 (rt : Runtime) (net : string → RequestInit → FetchResult)
    (req : Request) :
  (∀ u msg, passes_validation rt req u →
            net u (mkInit rt req) = Rejected msg →
            run net (handler rt req) =
              [EvFetch u (mkInit rt req);
               EvWriteHead 502 (jsonHeaders (inboundOrigin req));
               EvEnd (Some (JSON_stringify
                              (JObj {[ "error" := JStr "Upstream error";
                                       "detail" := JStr msg ]})))] ∧
            jsonHeaders (inboundOrigin req) !! "Access-Control-Allow-Origin" =
              Some (inboundOrigin req) ∧
            fixed_cors (jsonHeaders (inboundOrigin req))) ∧
  (fails_validation rt req → ¬ calls_upstream (run net (handler rt req))).
Proof.
  split.
  - intros u msg Hp Hnet. rewrite (run_forwarded rt net req u Hp), Hnet.
    split; [done|]. split; [apply jsonHeaders_allow_origin|apply jsonHeaders_fixed].
  - intros Hf (u & i & Hin).
    destruct (fails_validation_outcome rt req Hf) as (st & msg & _ & Heq).
    rewrite Heq in Hin. by apply fail_no_fetch in Hin.
Qed.

Lemma passes_validation_sample_get :
  passes_validation Sample.node_listed Sample.req_get Sample.target.
Proof. repeat split; try discriminate; by vm_compute. Defined.

(** A failed name resolution gives 502; a host that is not listed is
    never called. *)
Lemma upstream_failure_502_witness :
  (run Sample.net_down (handler Sample.node_listed Sample.req_get) =
     [EvFetch Sample.target (mkInit Sample.node_listed Sample.req_get);
      EvWriteHead 502 (jsonHeaders "https://app.example");
      EvEnd (Some (JSON_stringify
                     (JObj {[ "error" := JStr "Upstream error";
                              "detail" := JStr "getaddrinfo ENOTFOUND api.example.com" ]})))] ∧
   jsonHeaders "https://app.example" !! "Access-Control-Allow-Origin" =
     Some "https://app.example" ∧
   fixed_cors (jsonHeaders "https://app.example")) ∧
  ¬ calls_upstream (run Sample.net_down (handler Sample.node_listed Sample.req_other)).
Proof.
  split.
  - apply (proj1 (upstream_failure_502 Sample.node_listed Sample.net_down Sample.req_get)
             Sample.target "getaddrinfo ENOTFOUND api.example.com").
    + apply passes_validation_sample_get.
    + reflexivity.
  - apply (proj2 (upstream_failure_502 Sample.node_listed Sample.net_down Sample.req_other)).
    split; [discriminate|]. right. right. by vm_compute.
Defined.

(** ** Decoding the extra headers *)

(** C7 (as amended).  Whatever the [h64] parameter holds, decoding never
    fails the request: the extra headers are a value [v] exactly when
    [h64] is present and not empty, the decoded text parses to [v], and
    [v] has JavaScript type ['object'] without being [null], that is, [v]
    is a plain object or an array; in every other case the handler
    behaves as it does on the same request without [h64]; and whatever
    [h64] holds, the request passes validation exactly when it does
    without [h64]. *)
Theorem extra_headers_decoding (rt : Runtime) (req : Request) :
  (∀ v, extraHeaders rt req = Some v ↔
        ∃ s, query req !! "h64" = Some s ∧ s ≠ "" ∧
             JSON_parse rt (Buffer_base64_utf8 rt s) = Some v ∧
             ((∃ m, v = JObj m) ∨ (∃ l, v = JArr l))) ∧
  (extraHeaders rt req = None → handler rt req = handler rt (without_h64 req)) ∧
  (∀ u, passes_validation rt req u ↔ passes_validation rt (without_h64 req) u).
Proof.
  split; [intros v; apply extraHeaders_Some|]. split.
  - intros Hnone. unfold handler, mkInit, upstreamHeaders, inboundOrigin.
    rewrite Hnone, extraHeaders_without_h64. simpl.
    by rewrite lookup_delete_ne.
  - intros u. unfold passes_validation, without_h64. simpl.
    by rewrite lookup_delete_ne.
Qed.

(** A malformed [h64] changes nothing. *)
Lemma extra_headers_decoding_witness :
  (∀ v, extraHeaders Sample.node_open Sample.req_bad_h64 = Some v ↔
        ∃ s, query Sample.req_bad_h64 !! "h64" = Some s ∧ s ≠ "" ∧
             JSON_parse Sample.node_open (Buffer_base64_utf8 Sample.node_open s) = Some v ∧
             ((∃ m, v = JObj m) ∨ (∃ l, v = JArr l))) ∧
  handler Sample.node_open Sample.req_bad_h64 =
  handler Sample.node_open (without_h64 Sample.req_bad_h64).
Proof.
  destruct (extra_headers_decoding Sample.node_open Sample.req_bad_h64)
    as (Hiff & Hsame & _).
  split; [exact Hiff|]. apply Hsame. reflexivity.
Defined.

(** C7, counterexample.  The text [[1]] parses to an array, which is not
    a key-value object, and the handler uses it as the extra headers: the
    outbound request carries a header named [0]. *)
Lemma array_extra_headers_counterexample :
  extraHeaders Sample.node_open Sample.req_array = Some (JArr [JNum 1]) ∧
  upstreamHeaders Sample.node_open Sample.req_array !! "0" = Some (JNum 1) ∧
  ¬ extras_iff_key_value_object Sample.node_open Sample.req_array.
Proof.
  split; [by vm_compute|]. split; [by vm_compute|].
  intros Hclaim. destruct (Hclaim (JArr [JNum 1])) as [Hused _].
  destruct Hused as (s & m & _ & _ & Habs); [by vm_compute|discriminate].
Qed.

(** ** The body of the outbound request *)

(** C8.  Whenever the handler calls the upstream, the call keeps the
    inbound method; for [GET] and [HEAD] it carries no body, whatever
    the inbound request carried, and for every other method it carries
    the inbound body unchanged. *)
Theorem outbound_body (rt : Runtime) (net : string → RequestInit → FetchResult)
    (req : Request) (u : string) (init : RequestInit) :
  EvFetch u init ∈ run net (handler rt req) →
  init_method init = method req ∧
  (method req = "GET" ∨ method req = "HEAD" → init_body init = None) ∧
  (method req ≠ "GET" → method req ≠ "HEAD" → init_body init = Some (body req)).
Proof.
  intros Hin. apply fetch_in_run in Hin as [_ ->]. unfold mkInit. simpl.
  split; [done|]. split.
  - intros Hm. rewrite bool_decide_eq_true_2; [done|].
    rewrite !elem_of_cons. tauto.
  - intros Hg Hh. rewrite bool_decide_eq_false_2; [done|].
    rewrite !elem_of_cons, elem_of_nil. tauto.
Qed.

(** A [POST] is forwarded as a [POST] with its body. *)
Lemma outbound_body_witness :
  init_method (mkInit Sample.node_open Sample.req_post) = "POST" ∧
  init_body (mkInit Sample.node_open Sample.req_post) = Some "{}".
Proof.
  destruct (outbound_body Sample.node_open Sample.net_ok Sample.req_post Sample.target
              (mkInit Sample.node_open Sample.req_post)) as (Hm & _ & Hbody).
  - vm_compute. left.
  - split; [exact Hm|]. apply Hbody; discriminate.
Defined.

(** The body of a [GET] request is dropped, that of a [POST] is kept. *)
Example get_body_dropped :
  body Sample.req_get = "ignored" ∧
  init_body (mkInit Sample.node_open Sample.req_get) = None.
Proof. by vm_compute. Qed.

Example post_body_kept : init_body (mkInit Sample.node_open Sample.req_post) = Some "{}".
Proof. by vm_compute. Qed.

(** ** Extra headers can bring back what the filter removed *)

(** C10.  When the handler calls the upstream and [h64] decodes to an
    object [m], every entry of [m] is in the outbound header mapping
    with its value.  So an entry named [origin], or named as a hop-by-hop
    header, is sent upstream although the mapping built from the inbound
    headers has no such entry. *)
Theorem extra_headers_reintroduce (rt : Runtime)
    (net : string → RequestInit → FetchResult) (req : Request) (u : string)
    (init : RequestInit) (s : string) (m : gmap string JsVal) (k : string) (v : JsVal) :
  EvFetch u init ∈ run net (handler rt req) →
  query req !! "h64" = Some s → s ≠ "" →
  JSON_parse rt (Buffer_base64_utf8 rt s) = Some (JObj m) →
  m !! k = Some v →
  k = "origin" ∨ is_hop_by_hop k = true →
  baseHeaders req !! k = None ∧ init_headers init !! k = Some v.
Proof.
  intros Hin Hq Hne Hparse Hk Hfiltered.
  apply fetch_in_run in Hin as [_ ->]. simpl. split.
  - rewrite baseHeaders_lookup. destruct Hfiltered as [->|Hhop]; [done|].
    destruct (decide (k = "origin")); [done|].
    destruct (decide (k = "user-agent")) as [->|]; [by vm_compute in Hhop|].
    by rewrite Hhop.
  - assert (k ≠ "__proto__") as Hproto.
    { intros ->. destruct Hfiltered as [?|Hhop]; [done|]. by vm_compute in Hhop. }
    rewrite (upstreamHeaders_object rt req m).
    + apply lookup_union_Some_l. by rewrite lookup_delete_ne.
    + apply extraHeaders_Some. exists s. eauto 10.
Qed.

(** An extra [host] entry reaches the upstream although the inbound
    [host] was filtered out. *)
Lemma extra_headers_reintroduce_witness :
  baseHeaders Sample.req_reintro !! "host" = None ∧
  init_headers (mkInit Sample.node_open Sample.req_reintro) !! "host" =
    Some (JStr "internal.example").
Proof.
  apply (extra_headers_reintroduce Sample.node_open Sample.net_ok Sample.req_reintro
           Sample.target (mkInit Sample.node_open Sample.req_reintro) Sample.reintro_h64
           {[ "origin" := JStr "https://spoofed.example"; "host" := JStr "internal.example" ]}).
  - vm_compute. left.
  - reflexivity.
  - discriminate.
  - reflexivity.
  - reflexivity.
  - right. reflexivity.
Defined.

Example origin_reintroduced :
  headers Sample.req_reintro !! "origin" = Some "https://app.example" ∧
  baseHeaders Sample.req_reintro !! "origin" = None ∧
  upstreamHeaders Sample.node_open Sample.req_reintro !! "origin" =
    Some (JStr "https://spoofed.example").
Proof. by vm_compute. Qed.

(** ** The relayed response *)

(** What the success path does: the upstream status is written as it
    comes, with the mapping of [relayHeaders]; what follows depends on
    the body of the upstream response. *)
Lemma run_success (rt : Runtime) (net : string → RequestInit → FetchResult)
    (req : Request) (u : string) (up : Upstream) :
  passes_validation rt req u →
  net u (mkInit rt req) = Resolved up →
  run net (handler rt req) =
    EvFetch u (mkInit rt req) ::
    EvWriteHead (up_status up) (relayHeaders (inboundOrigin req) up) ::
    match up_body up with
    | None => [EvEnd None]
    | Some (NodeStream b None) => [EvPipe b]
    | Some (NodeStream b (Some e)) => [EvPipe b; EvDestroy e]
    | Some (WebStream _) => [EvThrow]
    end.
Proof.
  intros Hp Hnet. rewrite (run_forwarded rt net req u Hp), Hnet.
  by rewrite run_relay_resolved.
Qed.

(** The expose default gives way only to a value stored under the name
    spelled exactly [Access-Control-Expose-Headers]. *)
Lemma relayHeaders_expose (origin : string) (up : Upstream) :
  relayHeaders origin up !! "Access-Control-Expose-Headers" =
  Some (match up_headers up !! "Access-Control-Expose-Headers" with
        | Some v => if String.eqb v "" then DEFAULT_EXPOSE else v
        | None => DEFAULT_EXPOSE
        end).
Proof. rewrite relayHeaders_lookup. simpl. by rewrite or_else_unfold. Qed.

(** With the header names in lower case, as the [Headers] object of
    [fetch] reports them, that name is never found: the relayed mapping
    always holds the default, whatever the upstream sent. *)
Lemma relayHeaders_expose_lower_case (origin : string) (up : Upstream) :
  (∀ k, is_Some (up_headers up !! k) → toLowerCase k = k) →
  relayHeaders origin up !! "Access-Control-Expose-Headers" = Some DEFAULT_EXPOSE.
Proof.
  intros Hlower. rewrite relayHeaders_expose.
  destruct (up_headers up !! "Access-Control-Expose-Headers") as [v|] eqn:Hv; [|done].
  specialize (Hlower "Access-Control-Expose-Headers"). rewrite Hv in Hlower.
  by specialize (Hlower (mk_is_Some _ _ eq_refl)).
Qed.

(** C2, the code at the failing input.  The upstream answers 200 with
    its own [access-control-expose-headers: X-Request-Id], named in lower
    case as [fetch] reports header names.  The relayed mapping keeps
    that entry and still sets [Access-Control-Expose-Headers] to the
    default, which the claim allows only when the upstream set none. *)
Theorem expose_default_despite_upstream_value :
  up_headers Sample.upstream_ok !! "access-control-expose-headers" = Some "X-Request-Id" ∧
  run Sample.net_ok (handler Sample.node_open Sample.req_get) =
    [EvFetch Sample.target (mkInit Sample.node_open Sample.req_get);
     EvWriteHead 200 (relayHeaders "https://app.example" Sample.upstream_ok);
     EvPipe "{}"] ∧
  relayHeaders "https://app.example" Sample.upstream_ok
    !! "Access-Control-Expose-Headers" = Some "Content-Type, Content-Length, ETag" ∧
  relayHeaders "https://app.example" Sample.upstream_ok
    !! "access-control-expose-headers" = Some "X-Request-Id".
Proof. repeat split; vm_compute; reflexivity. Qed.

(** At that input the hop-by-hop [connection] is gone and the other
    upstream entries are kept under their own names. *)
Example relayed_mapping :
  relayHeaders "https://app.example" Sample.upstream_ok !! "connection" = None ∧
  relayHeaders "https://app.example" Sample.upstream_ok !! "content-type" =
    Some "application/json" ∧
  relayHeaders "https://app.example" Sample.upstream_ok !! "Access-Control-Allow-Origin" =
    Some "https://app.example".
Proof. repeat split; vm_compute; reflexivity. Qed.

(** The same holds for any upstream header outside the hop-by-hop set:
    an upstream [access-control-allow-origin], in the lower case of
    [fetch], stays in the mapping beside the entry the handler sets. *)
Example upstream_cors_header_kept (origin v : string) (up : Upstream) :
  up_headers up !! "access-control-allow-origin" = Some v →
  relayHeaders origin up !! "access-control-allow-origin" = Some v ∧
  relayHeaders origin up !! "Access-Control-Allow-Origin" = Some origin.
Proof. intros Hv. by rewrite !relayHeaders_lookup. Qed.

(** ** The outbound header mapping *)

(** What lines 92-103 compute, key by key, when the extra headers are an
    object: an extra entry wins under its exact name, unless that name is
    [__proto__]; below it, [origin] is absent, [user-agent] is the inbound
    one or the default, hop-by-hop names in any case are absent, and
    every other inbound entry is kept. *)
Lemma upstreamHeaders_object_lookup (rt : Runtime) (req : Request)
    (m : gmap string JsVal) (k : string) :
  extraHeaders rt req = Some (JObj m) →
  upstreamHeaders rt req !! k =
  match delete "__proto__" m !! k with
  | Some v => Some v
  | None =>
      if decide (k = "origin") then None
      else if decide (k = "user-agent") then
        Some (match headers req !! "user-agent" with
              | Some s => if String.eqb s "" then JStr DEFAULT_UA else JStr s
              | None => JStr DEFAULT_UA
              end)
      else if is_hop_by_hop k then None
      else JStr <$> headers req !! k
  end.
Proof.
  intros He. rewrite (upstreamHeaders_object rt req m He), lookup_union.
  destruct (delete "__proto__" m !! k) as [v|]; simpl.
  - by rewrite union_Some_l.
  - rewrite (left_id_L None (∪)), baseHeaders_lookup.
    by rewrite userAgent_copyInbound.
Qed.

(** An extra entry leaves an inbound header alone when their names
    differ by case only: both reach the upstream. *)
Lemma extra_entry_keeps_other_spelling (rt : Runtime) (req : Request)
    (m : gmap string JsVal) (k : string) (v : JsVal) (w : string) :
  extraHeaders rt req = Some (JObj m) →
  m !! k = Some v → k ≠ "__proto__" → m !! toLowerCase k = None →
  toLowerCase k ≠ "origin" → toLowerCase k ≠ "user-agent" →
  is_hop_by_hop (toLowerCase k) = false →
  headers req !! toLowerCase k = Some w →
  upstreamHeaders rt req !! k = Some v ∧
  upstreamHeaders rt req !! toLowerCase k = Some (JStr w).
Proof.
  intros He Hk Hp Hlow Ho Hu Hhop Hw.
  rewrite !(upstreamHeaders_object_lookup rt req m) by done.
  rewrite lookup_delete_ne, Hk by done. split; [done|].
  assert (delete "__proto__" m !! toLowerCase k = None) as ->.
  { apply lookup_delete_None. by right. }
  rewrite Hhop, Hw. by rewrite !decide_False.
Qed.

(** C3, the code at the failing input.  The inbound request carries
    [authorization: Bearer in] and [h64] is the base64 of
    [{"Authorization":"Bearer abc"}].  The outbound mapping holds both
    entries: the extra header did not override the inbound header of the
    same name in another case. *)
Theorem extra_header_other_case_not_overridden :
  headers Sample.req_auth !! "authorization" = Some "Bearer in" ∧
  extraHeaders Sample.node_open Sample.req_auth =
    Some (JObj {[ "Authorization" := JStr "Bearer abc" ]}) ∧
  run Sample.net_ok (handler Sample.node_open Sample.req_auth) =
    [EvFetch Sample.target (mkInit Sample.node_open Sample.req_auth);
     EvWriteHead 200 (relayHeaders "*" Sample.upstream_ok);
     EvPipe "{}"] ∧
  init_headers (mkInit Sample.node_open Sample.req_auth) !! "authorization" =
    Some (JStr "Bearer in") ∧
  init_headers (mkInit Sample.node_open Sample.req_auth) !! "Authorization" =
    Some (JStr "Bearer abc").
Proof. repeat split; vm_compute; reflexivity. Qed.

(** * Further properties of the handler *)

(** ** The shape of every run *)

(** X1.  Every call writes the response head exactly once, after at most
    one upstream call.  What follows the head is one [end], or one [pipe]
    of the upstream body, or that [pipe] and the [destroy] of the response
    when the upstream stream fails.  The handler throws in one case only:
    the upstream answered with a body that has no [pipe] method, so that
    line 134 throws after the head of line 130 is out and the [writeHead]
    of the [catch] block (line 142) throws in turn. *)
Theorem handler_answers_once (rt : Runtime) (net : string → RequestInit → FetchResult)
    (req : Request) :
  ∃ pre st h fin,
    run net (handler rt req) = (pre ++ EvWriteHead st h :: fin)%list ∧
    (pre = [] ∨ ∃ u, pre = [EvFetch u (mkInit rt req)]) ∧
    ((∃ d, fin = [EvEnd d]) ∨
     (∃ b, fin = [EvPipe b]) ∨
     (∃ b e, fin = [EvPipe b; EvDestroy e]) ∨
     (fin = [EvThrow] ∧
      ∃ u up b, passes_validation rt req u ∧
                net u (mkInit rt req) = Resolved up ∧
                up_body up = Some (WebStream b))).
Proof.
  destruct (handler_outcome rt req) as [Ho| | | |u Hp].
  1-4: exists []; eexists _, _, _; split; [reflexivity|];
       split; [by left|left; by eexists].
  unfold run. simpl. exists [EvFetch u (mkInit rt req)].
  destruct (net u (mkInit rt req)) as [up|msg] eqn:Hnet.
  - change (exec false net (relay (inboundOrigin req) (Resolved up)))
      with (run net (relay (inboundOrigin req) (Resolved up))).
    rewrite run_relay_resolved. eexists _, _, _. split; [reflexivity|].
    split; [right; by eexists|].
    destruct (up_body up) as [[b [e|]|b]|] eqn:Hb.
    + right; right; left. by eexists _, _.
    + right; left. by eexists.
    + right; right; right. split; [done|]. by exists u, up, b.
    + left. by eexists.
  - change (exec false net (relay (inboundOrigin req) (Rejected msg)))
      with (run net (relay (inboundOrigin req) (Rejected msg))).
    rewrite run_relay_rejected. eexists _, _, _. split; [reflexivity|].
    split; [right|left]; by eexists.
Qed.

(** ** The relayed status and body *)

(** X2.  When a request passes validation and the upstream answers, the
    response starts with the upstream status unchanged.  An upstream
    without a body ends the response with no data.  A body that is a Node
    stream is piped to the caller as it is, and the response is destroyed
    with the error of the stream when the stream fails.  A body without a
    [pipe] method (the stream of the built-in [fetch]) makes the handler
    throw after the head is written: nothing of the body is relayed. *)
Theorem success_relays_status_and_body (rt : Runtime)
    (net : string → RequestInit → FetchResult) (req : Request) (u : string)
    (up : Upstream) :
  passes_validation rt req u →
  net u (mkInit rt req) = Resolved up →
  ∃ fin,
    run net (handler rt req) =
      EvFetch u (mkInit rt req) ::
      EvWriteHead (up_status up) (relayHeaders (inboundOrigin req) up) :: fin ∧
    match up_body up with
    | None => fin = [EvEnd None]
    | Some (NodeStream b None) => fin = [EvPipe b]
    | Some (NodeStream b (Some e)) => fin = [EvPipe b; EvDestroy e]
    | Some (WebStream _) => fin = [EvThrow]
    end.
Proof.
  intros Hp Hnet. rewrite (run_success rt net req u up Hp Hnet).
  eexists. split; [reflexivity|]. by destruct (up_body up) as [[b [e|]|b]|].
Qed.

(** The sample upstream answers 200 with the body [{}]: as a Node stream
    it is piped; as a Node stream that fails with [aborted] the response
    is destroyed with that error; as a web stream the handler throws. *)
Lemma success_relays_status_and_body_witness :
  (∃ fin,
     run Sample.net_ok (handler Sample.node_listed Sample.req_get) =
       EvFetch Sample.target (mkInit Sample.node_listed Sample.req_get) ::
       EvWriteHead 200 (relayHeaders "https://app.example" Sample.upstream_ok) :: fin ∧
     fin = [EvPipe "{}"]) ∧
  (∃ fin,
     run (Sample.net_of Sample.upstream_broken)
         (handler Sample.node_listed Sample.req_get) =
       EvFetch Sample.target (mkInit Sample.node_listed Sample.req_get) ::
       EvWriteHead 200 (relayHeaders "https://app.example" Sample.upstream_broken) :: fin ∧
     fin = [EvPipe "{}"; EvDestroy "aborted"]) ∧
  (∃ fin,
     run (Sample.net_of Sample.upstream_web)
         (handler Sample.node_listed Sample.req_get) =
       EvFetch Sample.target (mkInit Sample.node_listed Sample.req_get) ::
       EvWriteHead 200 (relayHeaders "https://app.example" Sample.upstream_web) :: fin ∧
     fin = [EvThrow]).
Proof.
  split; [|split].
  - exact (success_relays_status_and_body Sample.node_listed Sample.net_ok
             Sample.req_get Sample.target Sample.upstream_ok
             passes_validation_sample_get eq_refl).
  - exact (success_relays_status_and_body Sample.node_listed
             (Sample.net_of Sample.upstream_broken)
             Sample.req_get Sample.target Sample.upstream_broken
             passes_validation_sample_get eq_refl).
  - exact (success_relays_status_and_body Sample.node_listed
             (Sample.net_of Sample.upstream_web)
             Sample.req_get Sample.target Sample.upstream_web
             passes_validation_sample_get eq_refl).
Defined.

(** ** The relayed header mapping *)

Lemma hop_by_hop_not_set_name (k : string) :
  is_hop_by_hop k = true → k ∉ RELAY_SET_NAMES.
Proof.
  intros Hhop Hin. unfold RELAY_SET_NAMES in Hin.
  repeat (apply elem_of_cons in Hin as [->|Hin]; [by vm_compute in Hhop|]).
  by apply elem_of_nil in Hin.
Qed.

Lemma corsHeaders_outside_set (origin k : string) :
  k ∉ RELAY_SET_NAMES → corsHeaders origin !! k = None.
Proof.
  unfold RELAY_SET_NAMES. rewrite !not_elem_of_cons. intros (? & ? & ? & ? & ? & ? & _).
  rewrite corsHeaders_lookup. by rewrite !decide_False.
Qed.

(** The assignments of line 117 keep, for every name, the value that was
    yielded last. *)
Lemma up_headers_last (up : Upstream) (k : string) :
  up_headers up !! k = last (sent_under k (up_entries up)).
Proof.
  unfold up_headers, sent_under.
  induction (up_entries up) as [|[k' v'] l IH] using rev_ind; [done|].
  rewrite reverse_snoc, filter_app, fmap_app. simpl.
  rewrite filter_cons, filter_nil. simpl.
  destruct (decide (k' = k)) as [->|Hne].
  - rewrite lookup_insert_eq. simpl. by rewrite last_snoc.
  - rewrite lookup_insert_ne by done. simpl. by rewrite app_nil_r.
Qed.

(** X3.  A hop-by-hop name, in any letter case, is never in the relayed
    header mapping, and neither is the name [__proto__], whose assignment
    on line 117 stores nothing.  Every other name that is not one of the
    six the handler writes itself is relayed exactly when the upstream
    sent it, with the value the upstream sent; when the upstream sent the
    name more than once (as [forEach] does for [set-cookie]), only the
    value yielded last is relayed. *)
Theorem relayed_headers_pass_through (origin : string) (up : Upstream) (k : string) :
  (is_hop_by_hop k = true → relayHeaders origin up !! k = None) ∧
  (k = "__proto__" → relayHeaders origin up !! k = None) ∧
  (is_hop_by_hop k = false → k ≠ "__proto__" → k ∉ RELAY_SET_NAMES →
   relayHeaders origin up !! k = last (sent_under k (up_entries up))).
Proof.
  split; [|split].
  - intros Hhop. pose proof (hop_by_hop_not_set_name k Hhop) as Hout.
    rewrite relayHeaders_lookup, (corsHeaders_outside_set origin k Hout), Hhop.
    destruct (decide (k = "Access-Control-Expose-Headers")) as [->|]; [|done].
    by vm_compute in Hhop.
  - intros ->. rewrite relayHeaders_lookup. reflexivity.
  - intros Hhop Hproto Hout.
    rewrite relayHeaders_lookup, (corsHeaders_outside_set origin k Hout), Hhop.
    destruct (decide (k = "Access-Control-Expose-Headers")) as [->|].
    { exfalso. apply Hout. unfold RELAY_SET_NAMES. rewrite !elem_of_cons. tauto. }
    rewrite bool_decide_eq_false_2 by done. simpl. apply up_headers_last.
Qed.

(** [connection] is dropped and [content-type] is kept; of an upstream
    that sends [__proto__] and two [set-cookie] headers, the first is not
    relayed and of the cookies only the second is. *)
Lemma relayed_headers_pass_through_witness :
  relayHeaders "*" Sample.upstream_ok !! "connection" = None ∧
  relayHeaders "*" Sample.upstream_ok !! "content-type" = Some "application/json" ∧
  sent_under "__proto__" (up_entries Sample.upstream_cookies) = ["x"] ∧
  relayHeaders "*" Sample.upstream_cookies !! "__proto__" = None ∧
  sent_under "set-cookie" (up_entries Sample.upstream_cookies) = ["a=1"; "b=2"] ∧
  relayHeaders "*" Sample.upstream_cookies !! "set-cookie" = Some "b=2".
Proof.
  assert (∀ k, k ≠ "Access-Control-Allow-Origin" →
               k ≠ "Access-Control-Allow-Credentials" →
               k ≠ "Access-Control-Allow-Methods" →
               k ≠ "Access-Control-Allow-Headers" →
               k ≠ "Access-Control-Max-Age" →
               k ≠ "Access-Control-Expose-Headers" → k ∉ RELAY_SET_NAMES) as Hout.
  { intros k ??????. unfold RELAY_SET_NAMES. rewrite !not_elem_of_cons.
    repeat split; try done. apply not_elem_of_nil. }
  split; [|split; [|split; [|split; [|split]]]].
  - apply (proj1 (relayed_headers_pass_through "*" Sample.upstream_ok "connection")).
    reflexivity.
  - apply (proj2 (proj2 (relayed_headers_pass_through "*" Sample.upstream_ok
                           "content-type")));
      [reflexivity|discriminate|by apply Hout].
  - reflexivity.
  - by apply (proj1 (proj2 (relayed_headers_pass_through "*" Sample.upstream_cookies
                              "__proto__"))).
  - reflexivity.
  - apply (proj2 (proj2 (relayed_headers_pass_through "*" Sample.upstream_cookies
                           "set-cookie")));
      [reflexivity|discriminate|by apply Hout].
Defined.

(** ** The overlay of the extra headers *)

Lemma object_entries_outside (m : gmap string JsVal) (k : string) :
  m !! k = None → k ∉ (Object_entries (JObj m)).*1.
Proof.
  intros Hk Hin. apply list_elem_of_fmap in Hin as ([k' v] & -> & Hin).
  simpl in Hin. apply elem_of_map_to_list in Hin. simpl in Hk. congruence.
Qed.

Lemma baseHeaders_user_agent (req : Request) :
  baseHeaders req !! "user-agent" = Some (settledUserAgent req).
Proof. rewrite baseHeaders_lookup. simpl. by rewrite userAgent_copyInbound. Qed.

(** X4.  Every outbound request carries a [user-agent] header: the extra
    headers can replace it but nothing removes it.  Unless an extra entry
    has that exact name, it is the inbound [user-agent] when that is
    present and not empty, and the default of the relay otherwise. *)
Theorem outbound_user_agent (rt : Runtime) (req : Request) :
  is_Some (upstreamHeaders rt req !! "user-agent") ∧
  ((∀ extra, extraHeaders rt req = Some extra →
             "user-agent" ∉ (Object_entries extra).*1) →
   upstreamHeaders rt req !! "user-agent" = Some (settledUserAgent req)).
Proof.
  unfold upstreamHeaders. destruct (extraHeaders rt req) as [extra|].
  - split.
    + apply overlay_keeps_names. rewrite baseHeaders_user_agent. by eexists.
    + intros Hout. rewrite overlay_outside by eauto. apply baseHeaders_user_agent.
  - rewrite baseHeaders_user_agent. split; [by eexists|done].
Qed.

(** A browser request without [user-agent] goes out with the default. *)
Lemma outbound_user_agent_witness :
  upstreamHeaders Sample.node_open Sample.req_reintro !! "user-agent" =
  Some (JStr "Mozilla/5.0 (CORS-Proxy on Vercel)").
Proof.
  apply (proj2 (outbound_user_agent Sample.node_open Sample.req_reintro)).
  intros extra Hextra. vm_compute in Hextra. injection Hextra as <-.
  apply object_entries_outside. vm_compute. reflexivity.
Defined.

(** X5.  Outside the names of the extra entries (so for every name when
    there are no extra headers) the outbound mapping is the filtered
    inbound one: no [origin], no hop-by-hop name in any letter case, the
    settled [user-agent], and every other inbound header with its value. *)
Theorem outbound_headers_outside_extras (rt : Runtime) (req : Request) (k : string) :
  (∀ extra, extraHeaders rt req = Some extra → k ∉ (Object_entries extra).*1) →
  upstreamHeaders rt req !! k =
  if decide (k = "origin") then None
  else if decide (k = "user-agent") then Some (settledUserAgent req)
  else if is_hop_by_hop k then None
  else JStr <$> headers req !! k.
Proof.
  intros Hout.
  assert (upstreamHeaders rt req !! k = baseHeaders req !! k) as ->.
  { unfold upstreamHeaders. destruct (extraHeaders rt req) as [extra|]; [|done].
    apply overlay_outside. eauto. }
  rewrite baseHeaders_lookup. by rewrite userAgent_copyInbound.
Qed.

(** Without [h64], the inbound [host] is not forwarded. *)
Lemma outbound_headers_outside_extras_witness :
  upstreamHeaders Sample.node_open Sample.req_get !! "host" = None ∧
  upstreamHeaders Sample.node_open Sample.req_get !! "origin" = None ∧
  upstreamHeaders Sample.node_open Sample.req_get !! "accept" = Some (JStr "*/*").
Proof.
  assert (∀ k extra, extraHeaders Sample.node_open Sample.req_get = Some extra →
                     k ∉ (Object_entries extra).*1) as Hnone.
  { intros k extra Hextra. vm_compute in Hextra. discriminate. }
  split; [|split].
  - rewrite (outbound_headers_outside_extras _ _ "host" (Hnone "host")). reflexivity.
  - rewrite (outbound_headers_outside_extras _ _ "origin" (Hnone "origin")). reflexivity.
  - rewrite (outbound_headers_outside_extras _ _ "accept" (Hnone "accept")). reflexivity.
Defined.

(** X6.  When [h64] decodes to an object, each of its entries is in the
    outbound mapping under its exact name with its value, whatever the
    inbound headers hold under that name.  The one exception is an entry
    named [__proto__]: the assignment of line 102 stores nothing under
    that name, which keeps what the inbound headers hold under it. *)
Theorem extra_object_entries_sent (rt : Runtime) (req : Request)
    (m : gmap string JsVal) (k : string) (v : JsVal) :
  extraHeaders rt req = Some (JObj m) →
  m !! k = Some v →
  upstreamHeaders rt req !! k =
  if decide (k = "__proto__") then JStr <$> headers req !! "__proto__" else Some v.
Proof.
  intros He Hk. unfold upstreamHeaders. rewrite He.
  destruct (decide (k = "__proto__")) as [->|Hne].
  - by rewrite overlay_proto, baseHeaders_lookup.
  - apply overlay_entry; [|done]. simpl. by apply elem_of_map_to_list.
Qed.

(** The extra [Authorization] of the sample is sent.  Of the extra
    headers [{"__proto__":"x","X-Token":"t"}] the second is sent and the
    first is not. *)
Lemma extra_object_entries_sent_witness :
  upstreamHeaders Sample.node_open Sample.req_auth !! "Authorization" =
    Some (JStr "Bearer abc") ∧
  upstreamHeaders Sample.node_open Sample.req_proto !! "X-Token" = Some (JStr "t") ∧
  upstreamHeaders Sample.node_open Sample.req_proto !! "__proto__" = None.
Proof.
  split; [|split].
  - exact (extra_object_entries_sent Sample.node_open Sample.req_auth
             {[ "Authorization" := JStr "Bearer abc" ]} "Authorization"
             (JStr "Bearer abc") eq_refl eq_refl).
  - exact (extra_object_entries_sent Sample.node_open Sample.req_proto
             {[ "__proto__" := JStr "x"; "X-Token" := JStr "t" ]} "X-Token"
             (JStr "t") eq_refl eq_refl).
  - exact (extra_object_entries_sent Sample.node_open Sample.req_proto
             {[ "__proto__" := JStr "x"; "X-Token" := JStr "t" ]} "__proto__"
             (JStr "x") eq_refl eq_refl).
Defined.

(** A decimal numeral does not start with an underscore. *)
Lemma pretty_N_go_ne_underscore (x : N) (s s' : string) :
  s ≠ "_" +:+ s' → pretty_N_go x s ≠ "_" +:+ s'.
Proof.
  revert s. induction (N.lt_wf_0 x) as [x _ IH]; intros s ?.
  assert (x = 0 ∨ 0 < x)%N as [->|?] by lia.
  - by rewrite pretty_N_go_0.
  - rewrite pretty_N_go_step by done. apply IH.
    { by apply N.div_lt. }
    unfold pretty_N_char. by repeat case_match.
Qed.

Lemma pretty_nat_not_proto (i : nat) : pretty i ≠ "__proto__".
Proof.
  unfold pretty, pretty_nat, pretty, pretty_N. case_decide; [done|].
  by apply (pretty_N_go_ne_underscore _ "" "_proto__").
Qed.

(** X7.  When [h64] decodes to an array, each element is in the outbound
    mapping under its decimal index as the header name. *)
Theorem extra_array_elements_sent (rt : Runtime) (req : Request)
    (l : list JsVal) (i : nat) (x : JsVal) :
  extraHeaders rt req = Some (JArr l) →
  l !! i = Some x →
  upstreamHeaders rt req !! pretty i = Some x.
Proof.
  intros He Hi. unfold upstreamHeaders. rewrite He.
  apply overlay_entry; [|apply pretty_nat_not_proto]. simpl.
  by apply (elem_of_lookup_imap_2 (λ i x, (pretty i, x))).
Qed.

(** The array [[1]] becomes a header named [0]. *)
Lemma extra_array_elements_sent_witness :
  upstreamHeaders Sample.node_open Sample.req_array !! "0" = Some (JNum 1).
Proof.
  apply (extra_array_elements_sent Sample.node_open Sample.req_array [JNum 1] 0);
    reflexivity.
Defined.

(** ** What [h64] cannot change *)

Lemma without_h64_url (req : Request) :
  query (without_h64 req) !! "url" = query req !! "url".
Proof. unfold without_h64. simpl. by rewrite lookup_delete_ne. Qed.

Lemma handler_without_h64 (rt : Runtime) (req : Request) :
  handler rt req = handler rt (without_h64 req) ∨ ∃ u, passes_validation rt req u.
Proof.
  destruct (handler_outcome rt req) as [Ho|Hm Ht|u Hm Hq Hne Hh|u Hm Hq Hne Hh Ha|u Hp].
  - left. symmetry. exact (handler_preflight rt (without_h64 req) Ho).
  - left. symmetry. rewrite <- without_h64_url in Ht.
    exact (handler_missing rt (without_h64 req) Hm Ht).
  - left. symmetry. rewrite <- without_h64_url in Hq.
    exact (handler_invalid rt (without_h64 req) u Hm Hq Hne Hh).
  - left. symmetry. rewrite <- without_h64_url in Hq.
    exact (handler_not_allowed rt (without_h64 req) u Hm Hq Hne Hh Ha).
  - right. by exists u.
Qed.

(** X8.  The [h64] parameter reaches nothing but the outbound header
    mapping, and there only the names of its own entries.  With and
    without it the outbound call has the same method and body and the
    same headers under every other name; a request that passes validation
    is sent to the same target and relayed the same way; and a request
    that does not is answered identically. *)
Theorem h64_only_changes_headers (rt : Runtime) (req : Request) :
  init_method (mkInit rt req) = init_method (mkInit rt (without_h64 req)) ∧
  init_body (mkInit rt req) = init_body (mkInit rt (without_h64 req)) ∧
  (∀ k, (∀ extra, extraHeaders rt req = Some extra → k ∉ (Object_entries extra).*1) →
        init_headers (mkInit rt req) !! k =
        init_headers (mkInit rt (without_h64 req)) !! k) ∧
  (∀ u, passes_validation rt req u →
        handler rt req = await_fetch u (mkInit rt req) (relay (inboundOrigin req)) ∧
        handler rt (without_h64 req) =
          await_fetch u (mkInit rt (without_h64 req)) (relay (inboundOrigin req))) ∧
  ((∀ u, ¬ passes_validation rt req u) →
   handler rt req = handler rt (without_h64 req)).
Proof.
  split; [done|]. split; [done|]. split; [|split].
  - intros k Hout. simpl.
    rewrite (upstreamHeaders_absent rt (without_h64 req))
      by apply extraHeaders_without_h64.
    unfold upstreamHeaders. destruct (extraHeaders rt req) as [extra|]; [|done].
    rewrite overlay_outside by eauto. done.
  - intros u Hp. split; [by apply handler_forwarded|].
    apply (handler_forwarded rt (without_h64 req) u).
    destruct Hp as (Hm & Hq & Hne & Hh & Ha). repeat split; try done.
    by rewrite without_h64_url.
  - intros Hnone. destruct (handler_without_h64 rt req) as [Heq|[u Hp]]; [done|].
    by destruct (Hnone u).
Qed.

(** The extra [Authorization] leaves the method, the body and the
    [user-agent] of the outbound call as they are without it. *)
Lemma h64_only_changes_headers_witness :
  init_headers (mkInit Sample.node_open Sample.req_auth) !! "user-agent" =
  init_headers (mkInit Sample.node_open (without_h64 Sample.req_auth)) !! "user-agent".
Proof.
  destruct (h64_only_changes_headers Sample.node_open Sample.req_auth)
    as (_ & _ & Hheaders & _).
  apply Hheaders. intros extra Hextra. vm_compute in Hextra. injection Hextra as <-.
  apply object_entries_outside. vm_compute. reflexivity.
Defined.

(** ** Composing allow-lists *)

Lemma split_nonempty (sep : ascii) (s : string) : split sep s ≠ [].
Proof.
  destruct s as [|c s]; simpl; [done|].
  destruct (Ascii.eqb c sep); [done|]. by destruct (split sep s).
Qed.

Lemma split_append (sep : ascii) (a b : string) :
  split sep (a +:+ String sep b) = (split sep a ++ split sep b)%list.
Proof.
  induction a as [|c a IH]; simpl.
  - by rewrite Ascii.eqb_refl.
  - destruct (Ascii.eqb c sep); [by rewrite IH|]. rewrite IH.
    pose proof (split_nonempty sep a). by destruct (split sep a).
Qed.

Lemma allowedByEnv_with (rt : Runtime) (u allow : string) (parsed : URL) :
  allow ≠ "" → URL_parse rt u = Some parsed →
  allowedByEnv (with_ALLOWLIST rt allow) u =
  Some (bool_decide (toLowerCase (hostname parsed) ∈
                     (λ s, String_toLowerCase rt (String_trim rt s)) <$>
                     split "," allow)).
Proof.
  intros Hne Hp. unfold allowedByEnv, with_ALLOWLIST. simpl.
  apply String.eqb_neq in Hne. by rewrite Hne, Hp.
Qed.

(** X9.  Joining two non-empty allow-lists with a comma permits exactly
    the targets that one of the two permits: adding entries never
    revokes a host, and permits nothing the added entries do not name. *)
Theorem allow_list_concat (rt : Runtime) (u : string) (parsed : URL) (a b : string) :
  a ≠ "" → b ≠ "" → URL_parse rt u = Some parsed →
  allowedByEnv (with_ALLOWLIST rt (a +:+ "," +:+ b)) u = Some true ↔
  allowedByEnv (with_ALLOWLIST rt a) u = Some true ∨
  allowedByEnv (with_ALLOWLIST rt b) u = Some true.
Proof.
  intros Ha Hb Hp.
  assert (a +:+ "," +:+ b ≠ "") as Hab by (destruct a; done).
  rewrite !(allowedByEnv_with rt u _ parsed) by done.
  change ("," +:+ b) with (String "," b). rewrite split_append, fmap_app.
  split.
  - intros [= Hin]. apply bool_decide_eq_true in Hin. apply elem_of_app in Hin.
    destruct Hin as [Hin|Hin]; [left|right]; f_equal; by apply bool_decide_eq_true.
  - intros Hor. f_equal. apply bool_decide_eq_true, elem_of_app.
    destruct Hor as [[= Hin]|[= Hin]]; [left|right]; by apply bool_decide_eq_true in Hin.
Qed.

(** [api.example.com] stays permitted when [example.org] is added. *)
Lemma allow_list_concat_witness :
  allowedByEnv (with_ALLOWLIST Sample.node_open "api.example.com,example.org")
    Sample.target = Some true.
Proof.
  apply (proj2 (allow_list_concat Sample.node_open Sample.target
                  {| protocol := "https:"; hostname := "api.example.com" |}
                  "api.example.com" "example.org"
                  ltac:(discriminate) ltac:(discriminate) eq_refl)).
  left. vm_compute. reflexivity.
Defined.

Lemma toLowerCase_empty (s : string) : toLowerCase s = "" → s = "".
Proof. by destruct s. Qed.

Lemma is_space_ascii (c : ascii) : is_space c = true → (nat_of_ascii c <? 128)%nat = true.
Proof.
  unfold is_space. intros H. apply Nat.ltb_lt.
  apply orb_true_iff in H as [H|H].
  - apply andb_true_iff in H as [_ H]. apply Nat.leb_le in H. lia.
  - apply Nat.eqb_eq in H. lia.
Qed.

(** A string that the ASCII [trim] empties is white space of ASCII
    throughout, so that [String_trim] computes on it. *)
Lemma trim_empty_ascii (s : string) : trim s = "" → ascii_only s = true.
Proof.
  unfold trim. induction s as [|c s IH]; [done|]. simpl.
  destruct (is_space c) eqn:Hc.
  - intros H. by rewrite (is_space_ascii c Hc), (IH H).
  - simpl. by rewrite Hc.
Qed.

Lemma String_trim_blank (rt : Runtime) (s : string) :
  trim s = "" → String_toLowerCase rt (String_trim rt s) = "".
Proof.
  intros H. unfold String_trim. rewrite (trim_empty_ascii s H), H. reflexivity.
Qed.

(** X10.  An allow-list that is not empty but holds only blank entries
    (spaces, lone commas) is in force and permits no host: line 54 only
    takes the empty string for "no restriction". *)
Theorem blank_allow_list_blocks (rt : Runtime) (u allow : string) (parsed : URL) :
  env_ALLOWLIST rt = Some allow → allow ≠ "" →
  URL_parse rt u = Some parsed → hostname parsed ≠ "" →
  Forall (λ entry, trim entry = "") (split "," allow) →
  allowedByEnv rt u = Some false.
Proof.
  intros Ha Hne Hp Hhost Hblank. unfold allowedByEnv. rewrite Ha, Hp. simpl.
  apply String.eqb_neq in Hne. rewrite Hne. simpl. f_equal.
  apply bool_decide_eq_false. intros Hin.
  apply list_elem_of_fmap in Hin as (entry & Heq & Hin).
  rewrite Forall_forall in Hblank.
  rewrite (String_trim_blank rt entry (Hblank entry Hin)) in Heq.
  by apply toLowerCase_empty in Heq.
Qed.

(** [ALLOWLIST=" , "] refuses the sample target. *)
Lemma blank_allow_list_blocks_witness :
  allowedByEnv (with_ALLOWLIST Sample.node_open " , ") Sample.target = Some false.
Proof.
  apply (blank_allow_list_blocks (with_ALLOWLIST Sample.node_open " , ") Sample.target
           " , " {| protocol := "https:"; hostname := "api.example.com" |}).
  - reflexivity.
  - discriminate.
  - reflexivity.
  - discriminate.
  - repeat constructor.
Defined.

(** ** Which targets are ever called *)

(** X11.  The handler calls the upstream only with the [url] parameter
    itself as the target, only when that parses as an [http] or [https]
    URL, and, when an allow-list is in force, only when its host, in
    lower case, is one of the listed entries as line 56 reads them:
    trimmed of surrounding white space and put in lower case. *)
Theorem upstream_call_only_for_validated_target (rt : Runtime)
    (net : string → RequestInit → FetchResult) (req : Request) (u : string)
    (init : RequestInit) :
  EvFetch u init ∈ run net (handler rt req) →
  method req ≠ "OPTIONS" ∧
  query req !! "url" = Some u ∧
  valid_http_url rt u ∧
  (∀ allow, env_ALLOWLIST rt = Some allow → allow ≠ "" →
            ∃ parsed, URL_parse rt u = Some parsed ∧
                      host_listed rt allow (hostname parsed)).
Proof.
  intros Hin. apply fetch_in_run in Hin as [(Hm & Hq & Hne & Hh & Ha) _].
  split; [done|]. split; [done|].
  pose proof (proj1 (isHttpUrl_valid rt u) Hh) as Hvalid.
  split; [done|]. intros allow Hallow Hnonempty.
  destruct Hvalid as (parsed & Hp & _). exists parsed. split; [done|].
  by apply (allowedByEnv_listed rt u allow parsed true Hallow Hnonempty Hp Ha).
Qed.

(** The call of the sample request under the sample allow-list. *)
Lemma upstream_call_only_for_validated_target_witness :
  method Sample.req_get ≠ "OPTIONS" ∧
  query Sample.req_get !! "url" = Some Sample.target ∧
  valid_http_url Sample.node_listed Sample.target ∧
  (∀ allow, env_ALLOWLIST Sample.node_listed = Some allow → allow ≠ "" →
            ∃ parsed, URL_parse Sample.node_listed Sample.target = Some parsed ∧
                      host_listed Sample.node_listed allow (hostname parsed)).
Proof.
  apply (upstream_call_only_for_validated_target Sample.node_listed Sample.net_ok
           Sample.req_get Sample.target (mkInit Sample.node_listed Sample.req_get)).
  rewrite (run_forwarded _ _ _ _ passes_validation_sample_get). left.
Defined.
